(** * Climbing analysis: peaks, plateaus and rate of force development

    A shallow embedding of [climbing_analysis.py] and the properties of its
    core: the peak finder, the plateau segmenter and the per-plateau RFD
    computation.

    Numbers.  The script computes on binary64 floats.  Here a timestamp and
    a force are exact rationals ([Q]): comparisons and arithmetic are the
    mathematical ones, without rounding, NaN or infinities.  Equality of
    rationals is [Qeq] (written [==]).  The one place where rounding is
    looked at is the unit conversion, on the kernel's binary64 floats
    ([to_newtons_binary64], [to_kg_binary64]).

    Indices.  Every index the script uses is non-negative (peak indices are
    at least 1, the backward scan stops at 0), so indices are [nat] and the
    wrap-around of negative Python indices never comes into play.

    Exceptions.  Indexing out of range raises; a computation is a [result]. *)

From Stdlib Require Import Floats.
From Stdlib Require Import List Arith Bool Lia ZArith QArith Qfield Lqa Sorted.
Import ListNotations.

Local Open Scope nat_scope.

(* ------------------------------------------------------------------ *)
(** ** The run-time: exceptions, indexing, loops *)

Inductive exn : Type :=
| IndexError   (* sequence index out of range *)
| ValueError.  (* max() of an empty sequence *)

Inductive result (A : Type) : Type :=
| Ok (a : A)
| Raise (e : exn).

Arguments Ok {A} a.
Arguments Raise {A} e.

Definition bind {A B : Type} (r : result A) (k : A -> result B) : result B :=
  match r with
  | Ok a => k a
  | Raise e => Raise e
  end.

Notation "x <- r ;; k" := (bind r (fun x => k))
  (at level 61, r at next level, right associativity).
Notation "' p <- r ;; k" := (bind r (fun x => match x with p => k end))
  (at level 61, p pattern, r at next level, right associativity).

(** [l[i]] on a list or an array, and [series.iloc[i]] on a column. *)
Definition getitem {A : Type} (l : list A) (i : nat) : result A :=
  match nth_error l i with
  | Some a => Ok a
  | None => Raise IndexError
  end.

Definition iloc (series : list Q) (i : nat) : result Q := getitem series i.

(** [for i in range_: st = body(st, i)], stopping at the first exception. *)
Fixpoint for_each {S I : Type} (body : S -> I -> result S) (st : S)
    (range_ : list I) : result S :=
  match range_ with
  | [] => Ok st
  | i :: rest => st' <- body st i ;; for_each body st' rest
  end.

(** [a < b] on numbers, as a test. *)
Definition Qltb (a b : Q) : bool := negb (Qle_bool b a).

(* ------------------------------------------------------------------ *)
(** ** Constants (lines 7-8, 42, 67) *)

Definition GRAVITY : Q := 981 # 100.
Definition BODY_MASS : Q := 60.
Definition threshold : Q := 5000.
Definition baseline : Q := 1 # 10.

(** The unit conversions of lines 27 and 85 as the script computes them, on
    binary64 floats; the literal [9.81] denotes the nearest binary64 value. *)
Definition GRAVITY_binary64 : PrimFloat.float := 0x1.39eb851eb851fp+3%float.

Definition to_newtons_binary64 (kg : PrimFloat.float) : PrimFloat.float :=
  PrimFloat.mul kg GRAVITY_binary64.

Definition to_kg_binary64 (newtons : PrimFloat.float) : PrimFloat.float :=
  PrimFloat.div newtons GRAVITY_binary64.

(* ------------------------------------------------------------------ *)
(** ** Ingestion (lines 15-27) *)

Record Row : Type := {
  timestamp : Q;      (* milliseconds since the epoch *)
  sample_number : Q;
  battRaw : Q;
  samples : Q;        (* kilograms *)
  masses : Q
}.

(** The columns the core reads: timestamps rebased on the first row, samples
    converted from kilograms to newtons.  [iloc[0]] raises on a table with
    no row. *)
Definition ingest (data : list Row) : result (list Q * list Q) :=
  t0 <- iloc (map timestamp data) 0 ;;
  Ok (map (fun r => (timestamp r - t0)%Q) data,
      map (fun r => (samples r * GRAVITY)%Q) data).

(* ------------------------------------------------------------------ *)
(** ** Peak finder (line 35)

    [find_peaks] is [scipy.signal.find_peaks], which the script imports
    (line 3) and calls with the signal alone, so that no height, distance or
    prominence filter applies.  Its body is not part of the repository. *)

(** The library reads the array without bound checks and stays in range;
    [item] is that read. *)
Definition item (x : list Q) (i : nat) : Q := nth i x 0%Q.

(** Modelled from the spec: the inner loop of the library's scan, missing
    from the repository.  Once a sample is above its left neighbour, the
    samples equal to it are skipped, up to the last index at most:
    [while i_ahead < i_max and x[i_ahead] == x[i]: i_ahead += 1]. *)
Fixpoint look_ahead (x : list Q) (v : Q) (i_max fuel i_ahead : nat) : nat :=
  match fuel with
  | O => i_ahead
  | S fuel' =>
      if (i_ahead <? i_max) && Qeq_bool (item x i_ahead) v
      then look_ahead x v i_max fuel' (S i_ahead)
      else i_ahead
  end.

(** Modelled from the spec: the library's scan, missing from the
    repository.  Section 4.1 gives "the standard local-maximum definition -
    a point is a peak if it is not smaller than adjacent points and the
    sequence has a genuine local rise-then-fall around it".  The scan is one
    forward pass [while i < i_max: ...; i += 1]: a sample above its left
    neighbour opens a run of equal samples, the run is a peak when the
    sample that ends it is lower, the index reported is the middle of the
    run, rounded down, and the scan resumes after the run. *)
Fixpoint local_maxima_loop (x : list Q) (i_max fuel i : nat) : list nat :=
  match fuel with
  | O => []
  | S fuel' =>
      if i <? i_max then
        if Qltb (item x (i - 1)) (item x i) then
          let i_ahead := look_ahead x (item x i) i_max fuel (i + 1) in
          if Qltb (item x i_ahead) (item x i) then
            let left_edge := i in
            let right_edge := i_ahead - 1 in
            (left_edge + right_edge) / 2
              :: local_maxima_loop x i_max fuel' (i_ahead + 1)
          else local_maxima_loop x i_max fuel' (i + 1)
        else local_maxima_loop x i_max fuel' (i + 1)
      else []
  end.

(** Modelled from the spec: the peak finder, missing from the repository.
    The first and the last sample cannot be maxima: [i] starts at 1 and
    [i_max] is the last index.  Each pass moves [i] forward, so [length x]
    passes are enough ([local_maxima_loop_fuel]). *)
Definition find_peaks (x : list Q) : list nat :=
  local_maxima_loop x (length x - 1) (length x) 1.

(* ------------------------------------------------------------------ *)
(** ** Plateau segmenter (lines 44-54) *)

(** The loop state is [(plateaus, current_plateau)]. *)
Definition group_step (timestamps : list Q) (peaks : list nat)
    (st : list (list nat) * list nat) (i : nat)
    : result (list (list nat) * list nat) :=
  let '(plateaus, current_plateau) := st in
  p <- getitem peaks i ;;
  t <- iloc timestamps p ;;
  q <- getitem peaks (i - 1) ;;
  u <- iloc timestamps q ;;
  if Qltb (t - u) threshold
  then Ok (plateaus, current_plateau ++ [p])
  else Ok (plateaus ++ [current_plateau], [p]).

Definition group_peaks (timestamps : list Q) (peaks : list nat)
    : result (list (list nat)) :=
  p0 <- getitem peaks 0 ;;
  '(plateaus, current_plateau) <-
     for_each (group_step timestamps peaks) ([], [p0])
              (seq 1 (length peaks - 1)) ;;
  Ok (plateaus ++ [current_plateau]).

(* ------------------------------------------------------------------ *)
(** ** RFD calculator (lines 56-97) *)

(** [max(iterable, key=key)]: the first item is the running maximum, a later
    item replaces it only when its key is strictly greater. *)
Fixpoint max_loop (key : nat -> result Q) (rest : list nat)
    (maxitem : nat) (maxval : Q) : result nat :=
  match rest with
  | [] => Ok maxitem
  | it :: rest' =>
      val <- key it ;;
      if Qltb maxval val
      then max_loop key rest' it val
      else max_loop key rest' maxitem maxval
  end.

Definition py_max (key : nat -> result Q) (iterable : list nat) : result nat :=
  match iterable with
  | [] => Raise ValueError
  | it :: rest => val <- key it ;; max_loop key rest it val
  end.

(** Line 62. *)
Definition highest_peak_idx (signal : list Q) (plateau : list nat)
    : result nat :=
  py_max (fun idx => iloc signal idx) plateau.

(** Lines 66-69: [for idx in range(n - 1, -1, -1)], leaving [start_idx] as
    it was when no sample is at or under the baseline. *)
Fixpoint scan_back (signal : list Q) (n : nat) (start_idx : nat) : result nat :=
  match n with
  | O => Ok start_idx
  | S idx =>
      v <- iloc signal idx ;;
      if Qle_bool v baseline then Ok idx else scan_back signal idx start_idx
  end.

(** Lines 65-69. *)
Definition start_idx (signal : list Q) (plateau : list nat) : result nat :=
  first_peak <- getitem plateau 0 ;;
  scan_back signal first_peak first_peak.

Record RFDResult : Type := {
  Plateau_Start_Time : Q;
  Peak_Time : Q;
  Time_to_Peak_s : Q;
  Peak_Value_kg : Q;
  Peak_Value_N : Q;
  RFD_kg_s : option Q;
  RFD_N_s : option Q
}.

Record RFDLine : Type := {
  start_time : Q;
  end_time : Q;
  start_value : Q;
  end_value : Q
}.

(** Line 78. *)
Definition rfd_of (peak_value time_to_peak : Q) : option Q :=
  if Qltb 0 time_to_peak then Some (peak_value / time_to_peak)%Q else None.

(** Line 74. *)
Definition time_to_peak_of (peak_time start_time_ : Q) : Q :=
  ((peak_time - start_time_) / 1000)%Q.

(** The body of the loop over plateaus. *)
Definition analyse_plateau (timestamps signal : list Q) (plateau : list nat)
    : result (RFDResult * RFDLine) :=
  highest <- highest_peak_idx signal plateau ;;
  start <- start_idx signal plateau ;;
  start_time_ <- iloc timestamps start ;;
  peak_time <- iloc timestamps highest ;;
  let time_to_peak := time_to_peak_of peak_time start_time_ in
  peak_value <- iloc signal highest ;;
  let rfd := rfd_of peak_value time_to_peak in
  Ok ({| Plateau_Start_Time := start_time_;
         Peak_Time := peak_time;
         Time_to_Peak_s := time_to_peak;
         Peak_Value_kg := (peak_value / GRAVITY)%Q;
         Peak_Value_N := peak_value;
         RFD_kg_s := match rfd with
                     | Some r => Some (r / GRAVITY)%Q
                     | None => None
                     end;
         RFD_N_s := match rfd with
                    | Some r => Some r
                    | None => None
                    end |},
      {| start_time := start_time_;
         end_time := peak_time;
         start_value := 0;
         end_value := peak_value |}).

(** The loop state is [(rfd_results, rfd_lines)]. *)
Definition rfd_step (timestamps signal : list Q)
    (st : list RFDResult * list RFDLine) (plateau : list nat)
    : result (list RFDResult * list RFDLine) :=
  let '(rfd_results, rfd_lines) := st in
  '(row, line) <- analyse_plateau timestamps signal plateau ;;
  Ok (rfd_results ++ [row], rfd_lines ++ [line]).

(* ------------------------------------------------------------------ *)
(** ** The pipeline (lines 34-97), from the ingested columns *)

Definition analysis (timestamps signal : list Q)
    : result (list RFDResult * list RFDLine) :=
  let peaks := find_peaks signal in
  plateaus <- group_peaks timestamps peaks ;;
  for_each (rfd_step timestamps signal) ([], []) plateaus.

Definition rfd_results (timestamps signal : list Q) : result (list RFDResult) :=
  '(rows, _) <- analysis timestamps signal ;; Ok rows.

(** Lines 15-97, from the parsed table. *)
Definition run (data : list Row) : result (list RFDResult * list RFDLine) :=
  '(timestamps, signal) <- ingest data ;;
  analysis timestamps signal.

(** Lines 44-97 alone: the segmenter and the loop over plateaus, from a
    list of peaks. *)
Definition analysis_of_peaks (timestamps signal : list Q) (peaks : list nat)
    : result (list RFDResult * list RFDLine) :=
  plateaus <- group_peaks timestamps peaks ;;
  for_each (rfd_step timestamps signal) ([], []) plateaus.

(* ------------------------------------------------------------------ *)
(** ** Recordings used as examples *)

(** The scenario of section 8 of the specification: two peaks, 50 N at
    300 ms and 80 N at 700 ms. *)
Definition scenario_signal : list Q := [0; 0; 0; 50; 0; 0; 0; 80; 0; 0]%Q.
Definition scenario_timestamps : list Q :=
  [0; 100; 200; 300; 400; 500; 600; 700; 800; 900]%Q.

(** Three peaks 4 s apart: a chain 8 s long. *)
Definition chain_signal : list Q := [0; 5; 0; 5; 0; 5; 0]%Q.
Definition chain_timestamps : list Q :=
  [0; 1000; 2000; 5000; 6000; 9000; 10000]%Q.

(** Two peaks 6 s apart. *)
Definition apart_signal : list Q := [0; 5; 0; 7; 0]%Q.
Definition apart_timestamps : list Q := [0; 1000; 2000; 7000; 8000]%Q.

(** A peak with no sample at rest before it. *)
Definition no_rest_signal : list Q := [1; 5; 1]%Q.
Definition no_rest_timestamps : list Q := [0; 100; 200]%Q.

(** A first effort with no sample at rest before it, then a second one
    six seconds later. *)
Definition mixed_signal : list Q := [1; 5; 1; 0; 7; 0]%Q.
Definition mixed_timestamps : list Q := [0; 100; 200; 6000; 6100; 6200]%Q.

(** A peak two samples wide. *)
Definition flat_signal : list Q := [0; 2; 2; 0]%Q.

(** Two samples only. *)
Definition short_signal : list Q := [10; 20]%Q.
Definition short_timestamps : list Q := [0; 100]%Q.

(* ------------------------------------------------------------------ *)
(** ** Vocabulary of the properties *)

(** [a] is immediately followed by [b] in [l]. *)
Definition adjacent {A : Type} (a b : A) (l : list A) : Prop :=
  exists l1 l2, l = l1 ++ a :: b :: l2.

(** Timestamp of sample [b] minus timestamp of sample [a]. *)
Definition gap (timestamps : list Q) (a b : nat) : Q :=
  (item timestamps b - item timestamps a)%Q.

(** Consecutive peaks of a plateau are less than the threshold apart. *)
Definition chained (timestamps : list Q) (plateau : list nat) : Prop :=
  forall a b, adjacent a b plateau -> (gap timestamps a b < threshold)%Q.

(** A plateau ends at least the threshold before the next one starts. *)
Definition separated (timestamps : list Q) (plateaus : list (list nat)) : Prop :=
  forall P1 P2, adjacent P1 P2 plateaus ->
    (threshold <= gap timestamps (last P1 O) (hd O P2))%Q.

(** The samples [left_edge .. right_edge] of [x] are equal, the sample before
    them and the sample after them are lower. *)
Definition flat_peak (x : list Q) (left_edge right_edge : nat) : Prop :=
  1 <= left_edge /\ left_edge <= right_edge /\ right_edge + 1 < length x /\
  (item x (left_edge - 1) < item x left_edge)%Q /\
  (forall k, left_edge <= k <= right_edge -> item x k == item x left_edge) /\
  (item x (right_edge + 1) < item x left_edge)%Q.

(** [h] is the first item of [plateau] whose force is maximal. *)
Definition first_max (signal : list Q) (plateau : list nat) (h : nat) : Prop :=
  exists before after,
    plateau = before ++ h :: after /\
    Forall (fun i => (item signal i < item signal h)%Q) before /\
    Forall (fun i => (item signal i <= item signal h)%Q) after.

(** Timestamps never go back. *)
Definition non_decreasing (timestamps : list Q) : Prop :=
  forall i j, i <= j -> j < length timestamps ->
    (item timestamps i <= item timestamps j)%Q.

(** Every index of the plateau is an index of the recording. *)
Definition in_range (n : nat) (plateau : list nat) : Prop :=
  Forall (fun i => i < n) plateau.

(** The segmenter's loop invariant before pass [k]: the plateaus built so
    far, the open one last, hold the first [k] peaks. *)
Definition grouped (timestamps : list Q) (peaks : list nat) (k : nat)
    (st : list (list nat) * list nat) : Prop :=
  let all := fst st ++ [snd st] in
  concat all = firstn k peaks /\
  Forall (fun P => P <> []) all /\
  last (snd st) O = nth (k - 1) peaks O /\
  Forall (chained timestamps) all /\
  separated timestamps all.

(** Timestamps go forward at every sample. *)
Definition strictly_increasing (timestamps : list Q) : Prop :=
  forall i j, i < j -> j < length timestamps ->
    (item timestamps i < item timestamps j)%Q.

(** The rows of a table are in the order of their timestamps. *)
Definition rows_in_time_order (data : list Row) : Prop :=
  forall i j ri rj, i <= j ->
    nth_error data i = Some ri -> nth_error data j = Some rj ->
    (timestamp ri <= timestamp rj)%Q.

(** A table as the device writes it: epoch milliseconds, sample number,
    battery, kilograms, masses. *)
Definition device_row (t kg : Q) : Row :=
  {| timestamp := t; sample_number := 0; battRaw := 0;
     samples := kg; masses := 0 |}.

Definition device_table : list Row :=
  [device_row 1700000000000 0; device_row 1700000000100 5;
   device_row 1700000000200 0]%Q.

(* ------------------------------------------------------------------ *)
(** ** Run-time lemmas *)

Lemma Qltb_true (a b : Q) : Qltb a b = true <-> (a < b)%Q.
Proof.
  unfold Qltb. rewrite negb_true_iff.
  split; intro H.
  - apply Qnot_le_lt. intro Hle. apply Qle_bool_iff in Hle. congruence.
  - destruct (Qle_bool b a) eqn:E; [|reflexivity].
    apply Qle_bool_iff in E. exfalso. apply (Qlt_not_le _ _ H E).
Qed.

Lemma Qltb_false (a b : Q) : Qltb a b = false <-> (b <= a)%Q.
Proof.
  unfold Qltb. rewrite negb_false_iff. apply Qle_bool_iff.
Qed.

Lemma bind_Ok {A B : Type} (r : result A) (k : A -> result B) (b : B) :
  bind r k = Ok b -> exists a, r = Ok a /\ k a = Ok b.
Proof.
  destruct r as [a|e]; simpl; intro H; [eauto | discriminate].
Qed.

Lemma getitem_Ok {A : Type} (l : list A) (i : nat) (a : A) :
  getitem l i = Ok a <-> nth_error l i = Some a.
Proof.
  unfold getitem. destruct (nth_error l i); split; intro H;
    inversion H; reflexivity.
Qed.

Lemma getitem_lt {A : Type} (l : list A) (i : nat) (d : A) :
  i < length l -> getitem l i = Ok (nth i l d).
Proof.
  intro H. apply getitem_Ok. now apply nth_error_nth'.
Qed.

Lemma getitem_Ok_lt {A : Type} (l : list A) (i : nat) (a : A) :
  getitem l i = Ok a -> i < length l.
Proof.
  intro H. apply getitem_Ok in H. apply nth_error_Some. congruence.
Qed.

Lemma getitem_Ok_nth {A : Type} (l : list A) (i : nat) (a d : A) :
  getitem l i = Ok a -> nth i l d = a.
Proof.
  intro H. apply getitem_Ok in H. now apply nth_error_nth.
Qed.

Lemma iloc_lt (series : list Q) (i : nat) :
  i < length series -> iloc series i = Ok (item series i).
Proof. apply getitem_lt. Qed.

Lemma iloc_Ok (series : list Q) (i : nat) (v : Q) :
  iloc series i = Ok v -> i < length series /\ v = item series i.
Proof.
  intro H. split.
  - eapply getitem_Ok_lt; eassumption.
  - symmetry. unfold item. eapply getitem_Ok_nth; eassumption.
Qed.

(** Splits a successful sequence of binds into its steps. *)
Ltac inv_bind H :=
  let a := fresh "v" in
  let Ha := fresh "E" in
  apply bind_Ok in H; destruct H as (a & Ha & H).

(* ------------------------------------------------------------------ *)
(** ** Peak finder *)

(** The look-ahead never passes [i_max], skips only samples equal to [v]
    and, given enough fuel, stops on a sample that differs or on [i_max]. *)
Lemma look_ahead_bounds (x : list Q) (v : Q) (i_max : nat) :
  forall fuel i0, i0 <= i_max ->
    i0 <= look_ahead x v i_max fuel i0 <= i_max.
Proof.
  induction fuel as [|fuel IH]; intros i0 Hi; simpl; [lia|].
  destruct (i0 <? i_max) eqn:Elt; simpl; [|lia].
  apply Nat.ltb_lt in Elt.
  destruct (Qeq_bool (item x i0) v); [|lia].
  specialize (IH (S i0)). lia.
Qed.

Lemma look_ahead_equal (x : list Q) (v : Q) (i_max : nat) :
  forall fuel i0 k, i0 <= k < look_ahead x v i_max fuel i0 -> item x k == v.
Proof.
  induction fuel as [|fuel IH]; intros i0 k Hk; simpl in Hk; [lia|].
  destruct (i0 <? i_max) eqn:Elt; simpl in Hk; [|lia].
  destruct (Qeq_bool (item x i0) v) eqn:Eeq; [|lia].
  destruct (Nat.eq_dec k i0) as [->|Hne].
  - now apply Qeq_bool_iff.
  - apply (IH (S i0)). lia.
Qed.

Lemma look_ahead_stops (x : list Q) (v : Q) (i_max : nat) :
  forall fuel i0, i_max - i0 <= fuel ->
    look_ahead x v i_max fuel i0 < i_max ->
    ~ item x (look_ahead x v i_max fuel i0) == v.
Proof.
  induction fuel as [|fuel IH]; intros i0 Hfuel; simpl.
  - lia.
  - destruct (i0 <? i_max) eqn:Elt; simpl.
    + destruct (Qeq_bool (item x i0) v) eqn:Eeq.
      * apply IH. lia.
      * intros _ Heq. apply Qeq_bool_iff in Heq. congruence.
    + apply Nat.ltb_ge in Elt. lia.
Qed.

(** The look-ahead does not depend on the fuel once there is enough. *)
Lemma look_ahead_fuel (x : list Q) (v : Q) (i_max : nat) :
  forall fuel fuel' i0, i_max - i0 <= fuel -> i_max - i0 <= fuel' ->
    look_ahead x v i_max fuel i0 = look_ahead x v i_max fuel' i0.
Proof.
  induction fuel as [|fuel IH]; intros [|fuel'] i0 H H'; simpl; trivial.
  - replace (i0 <? i_max) with false by (symmetry; apply Nat.ltb_ge; lia).
    reflexivity.
  - replace (i0 <? i_max) with false by (symmetry; apply Nat.ltb_ge; lia).
    reflexivity.
  - destruct (i0 <? i_max) eqn:Elt; simpl; trivial.
    destruct (Qeq_bool (item x i0) v); trivial.
    apply IH; lia.
Qed.

(** What one accepted pass of the scan has found. *)
Lemma accepted_is_flat_peak (x : list Q) (fuel i : nat) :
  1 <= i -> i < length x - 1 ->
  Qltb (item x (i - 1)) (item x i) = true ->
  Qltb (item x (look_ahead x (item x i) (length x - 1) fuel (i + 1)))
       (item x i) = true ->
  i + 1 <= look_ahead x (item x i) (length x - 1) fuel (i + 1) /\
  flat_peak x i (look_ahead x (item x i) (length x - 1) fuel (i + 1) - 1).
Proof.
  intros H1 Hi Hrise Hfall.
  set (i_ahead := look_ahead x (item x i) (length x - 1) fuel (i + 1)) in *.
  assert (Hb : i + 1 <= i_ahead <= length x - 1)
    by (apply look_ahead_bounds; lia).
  apply Qltb_true in Hrise. apply Qltb_true in Hfall.
  split; [lia|].
  unfold flat_peak. repeat split; try lia; trivial.
  - intros k Hk. destruct (Nat.eq_dec k i) as [->|Hne]; [reflexivity|].
    apply (look_ahead_equal x (item x i) (length x - 1) fuel (i + 1)).
    fold i_ahead. lia.
  - replace (i_ahead - 1 + 1) with i_ahead by lia. exact Hfall.
Qed.

Lemma local_maxima_loop_S (x : list Q) (i_max fuel i : nat) :
  local_maxima_loop x i_max (S fuel) i =
  if i <? i_max then
    if Qltb (item x (i - 1)) (item x i) then
      if Qltb (item x (look_ahead x (item x i) i_max (S fuel) (i + 1))) (item x i)
      then (i + (look_ahead x (item x i) i_max (S fuel) (i + 1) - 1)) / 2
             :: local_maxima_loop x i_max fuel
                  (look_ahead x (item x i) i_max (S fuel) (i + 1) + 1)
      else local_maxima_loop x i_max fuel (i + 1)
    else local_maxima_loop x i_max fuel (i + 1)
  else [].
Proof. reflexivity. Qed.

(** Every index the scan reports is the middle of a flat peak found at or
    after the position the scan started from. *)
Lemma local_maxima_loop_sound (x : list Q) :
  forall fuel i p, 1 <= i ->
    In p (local_maxima_loop x (length x - 1) fuel i) ->
    exists left_edge right_edge,
      i <= left_edge /\ flat_peak x left_edge right_edge /\
      p = (left_edge + right_edge) / 2.
Proof.
  induction fuel as [|fuel IH]; intros i p H1 Hin; [easy|].
  rewrite local_maxima_loop_S in Hin.
  destruct (i <? length x - 1) eqn:Elt; [|easy].
  apply Nat.ltb_lt in Elt.
  destruct (Qltb (item x (i - 1)) (item x i)) eqn:Erise.
  - destruct (Qltb (item x (look_ahead x (item x i) (length x - 1) (S fuel) (i + 1)))
                   (item x i)) eqn:Efall.
    + destruct (accepted_is_flat_peak x (S fuel) i H1 Elt Erise Efall)
        as [Hahead Hflat].
      destruct Hin as [<-|Hin].
      * exists i. eexists. split; [lia|]. split; [exact Hflat|reflexivity].
      * apply IH in Hin; [|lia].
        destruct Hin as (l & r & Hl & Hlr & Hp).
        exists l, r. split; [lia|]. split; assumption.
    + apply IH in Hin; [|lia].
      destruct Hin as (l & r & Hl & Hlr & Hp).
      exists l, r. split; [lia|]. split; assumption.
  - apply IH in Hin; [|lia].
    destruct Hin as (l & r & Hl & Hlr & Hp).
    exists l, r. split; [lia|]. split; assumption.
Qed.

Lemma midpoint_between (l r : nat) : l <= r -> l <= (l + r) / 2 <= r.
Proof.
  intro H. split.
  - apply Nat.div_le_lower_bound; lia.
  - apply Nat.Div0.div_le_upper_bound; lia.
Qed.

(** The reported indices increase strictly, from the start position on. *)
Lemma local_maxima_loop_sorted (x : list Q) :
  forall fuel i, 1 <= i ->
    Forall (fun p => i <= p) (local_maxima_loop x (length x - 1) fuel i) /\
    StronglySorted lt (local_maxima_loop x (length x - 1) fuel i).
Proof.
  induction fuel as [|fuel IH]; intros i H1.
  - split; constructor.
  - rewrite local_maxima_loop_S.
    destruct (i <? length x - 1) eqn:Elt; [|split; constructor].
    apply Nat.ltb_lt in Elt.
    assert (Hnext : Forall (fun p => i <= p)
                      (local_maxima_loop x (length x - 1) fuel (i + 1)) /\
                    StronglySorted lt
                      (local_maxima_loop x (length x - 1) fuel (i + 1))).
    { destruct (IH (i + 1)) as [Hge Hs]; [lia|]. split; trivial.
      eapply Forall_impl; [|exact Hge]. simpl. intros; lia. }
    destruct (Qltb (item x (i - 1)) (item x i)) eqn:Erise; trivial.
    destruct (Qltb (item x (look_ahead x (item x i) (length x - 1) (S fuel) (i + 1)))
                   (item x i)) eqn:Efall; trivial.
    destruct (accepted_is_flat_peak x (S fuel) i H1 Elt Erise Efall)
      as [Hahead Hflat].
    set (i_ahead := look_ahead x (item x i) (length x - 1) (S fuel) (i + 1)) in *.
    assert (Hmid : i <= (i + (i_ahead - 1)) / 2 <= i_ahead - 1)
      by (apply midpoint_between; lia).
    destruct (IH (i_ahead + 1)) as [Hge Hs]; [lia|].
    split.
    + constructor; [lia|].
      eapply Forall_impl; [|exact Hge]. cbv beta. intros; lia.
    + constructor; trivial.
      eapply Forall_impl; [|exact Hge]. cbv beta. intros; lia.
Qed.

(** More fuel than [length x] changes nothing. *)
Lemma local_maxima_loop_fuel (x : list Q) (i_max : nat) :
  forall fuel fuel' i, i_max - i <= fuel -> i_max - i <= fuel' ->
    local_maxima_loop x i_max fuel i = local_maxima_loop x i_max fuel' i.
Proof.
  induction fuel as [|fuel IH]; intros [|fuel'] i H H';
    rewrite ?local_maxima_loop_S; trivial.
  - replace (i <? i_max) with false by (symmetry; apply Nat.ltb_ge; lia).
    reflexivity.
  - replace (i <? i_max) with false by (symmetry; apply Nat.ltb_ge; lia).
    reflexivity.
  - destruct (i <? i_max) eqn:Elt; trivial.
    apply Nat.ltb_lt in Elt.
    destruct (Qltb (item x (i - 1)) (item x i)); [|apply IH; lia].
    assert (Hla : look_ahead x (item x i) i_max (S fuel) (i + 1)
                  = look_ahead x (item x i) i_max (S fuel') (i + 1))
      by (apply look_ahead_fuel; lia).
    rewrite <- Hla.
    pose proof (look_ahead_bounds x (item x i) i_max (S fuel) (i + 1)).
    destruct (Qltb _ (item x i)); [|apply IH; lia].
    f_equal. apply IH; lia.
Qed.

Lemma find_peaks_flat (x : list Q) (p : nat) :
  In p (find_peaks x) ->
  exists left_edge right_edge,
    flat_peak x left_edge right_edge /\ p = (left_edge + right_edge) / 2.
Proof.
  intro Hin. apply local_maxima_loop_sound in Hin; [|lia].
  destruct Hin as (l & r & _ & Hflat & Hp). eauto.
Qed.

Lemma find_peaks_in_range (x : list Q) (p : nat) :
  In p (find_peaks x) -> 1 <= p /\ p + 1 < length x.
Proof.
  intro Hin. apply find_peaks_flat in Hin.
  destruct Hin as (l & r & Hflat & ->).
  destruct Hflat as (H1 & Hlr & Hr & _).
  pose proof (midpoint_between l r Hlr). lia.
Qed.

Lemma find_peaks_sorted (x : list Q) : StronglySorted lt (find_peaks x).
Proof. apply local_maxima_loop_sorted. lia. Qed.

Lemma find_peaks_short (x : list Q) : length x < 3 -> find_peaks x = [].
Proof.
  intro H. unfold find_peaks.
  destruct x as [|a [|b [|c x]]]; simpl in *; trivial; lia.
Qed.

(* ------------------------------------------------------------------ *)
(** ** Lists grown at their end *)

Lemma adjacent_snoc {A : Type} (a b z : A) (l : list A) :
  adjacent a b (l ++ [z]) ->
  adjacent a b l \/ (b = z /\ exists l1, l = l1 ++ [a]).
Proof.
  intros (l1 & l2 & H).
  destruct (exists_last (l := a :: b :: l2)) as (m & y & Hm); [discriminate|].
  destruct l2 as [|c l2].
  - right.
    change (l ++ [z] = l1 ++ [a] ++ [b]) in H. rewrite app_assoc in H.
    apply app_inj_tail in H. destruct H as [-> ->]. eauto.
  - left.
    destruct (exists_last (l := c :: l2)) as (m' & y' & Hm'); [discriminate|].
    rewrite Hm' in H.
    change (l ++ [z] = l1 ++ (a :: b :: m') ++ [y']) in H.
    rewrite app_assoc in H.
    apply app_inj_tail in H. destruct H as [-> _].
    exists l1, m'. reflexivity.
Qed.

Lemma adjacent_single {A : Type} (a b z : A) : ~ adjacent a b [z].
Proof.
  intros (l1 & l2 & H).
  apply (f_equal (@length A)) in H. rewrite length_app in H. simpl in H. lia.
Qed.

Lemma firstn_snoc {A : Type} (l : list A) (k : nat) (a : A) :
  nth_error l k = Some a -> firstn (S k) l = firstn k l ++ [a].
Proof.
  revert k. induction l as [|b l IH]; intros [|k] H; simpl in *;
    try discriminate.
  - inversion H. reflexivity.
  - f_equal. now apply IH.
Qed.

Lemma hd_app_nonempty {A : Type} (d : A) (l l' : list A) :
  l <> [] -> hd d (l ++ l') = hd d l.
Proof. destruct l; [congruence | reflexivity]. Qed.

Lemma concat_snoc {A : Type} (ls : list (list A)) (l : list A) :
  concat (ls ++ [l]) = concat ls ++ l.
Proof. rewrite concat_app. simpl. now rewrite app_nil_r. Qed.

Lemma Forall_snoc {A : Type} (P : A -> Prop) (l : list A) (a : A) :
  Forall P (l ++ [a]) <-> Forall P l /\ P a.
Proof.
  rewrite Forall_app. split; intros [H1 H2]; split; trivial.
  - now inversion H2.
  - constructor; [trivial | constructor].
Qed.

(* ------------------------------------------------------------------ *)
(** ** Plateau segmenter *)

Lemma chained_single (timestamps : list Q) (p : nat) : chained timestamps [p].
Proof. intros a b H. now apply adjacent_single in H. Qed.

Lemma chained_snoc (timestamps : list Q) (plateau : list nat) (p : nat) :
  chained timestamps plateau ->
  (gap timestamps (last plateau O) p < threshold)%Q ->
  chained timestamps (plateau ++ [p]).
Proof.
  intros Hc Hg a b Hadj.
  apply adjacent_snoc in Hadj. destruct Hadj as [Hadj | [-> [l1 ->]]].
  - now apply Hc.
  - now rewrite last_last in Hg.
Qed.

(** One pass of the loop keeps the invariant. *)
Lemma group_step_grouped (timestamps : list Q) (peaks : list nat) (k : nat)
    (st st' : list (list nat) * list nat) :
  1 <= k ->
  grouped timestamps peaks k st ->
  group_step timestamps peaks st k = Ok st' ->
  grouped timestamps peaks (S k) st'.
Proof.
  intros Hk Hinv Hstep.
  destruct st as [plateaus current].
  unfold grouped in Hinv. cbn [fst snd] in Hinv.
  destruct Hinv as (Hcat & Hne & Hlast & Hch & Hsep).
  unfold group_step in Hstep.
  inv_bind Hstep. rename v into p, E into Ep.
  inv_bind Hstep. rename v into t, E into Et.
  inv_bind Hstep. rename v into q, E into Eq.
  inv_bind Hstep. rename v into u, E into Eu.
  apply iloc_Ok in Et. destruct Et as [_ ->].
  apply iloc_Ok in Eu. destruct Eu as [_ ->].
  assert (Hq : q = last current O).
  { rewrite Hlast. symmetry. eapply getitem_Ok_nth; eassumption. }
  apply getitem_Ok in Ep.
  apply Forall_snoc in Hne. destruct Hne as [Hne Hcur].
  apply Forall_snoc in Hch. destruct Hch as [Hch Hchcur].
  fold (gap timestamps q p) in Hstep.
  destruct (Qltb (gap timestamps q p) threshold) eqn:Eclose;
    inversion Hstep; subst st'; clear Hstep; unfold grouped; cbn [fst snd].
  - apply Qltb_true in Eclose.
    repeat split.
    + rewrite concat_snoc in *. rewrite (firstn_snoc _ _ _ Ep).
      rewrite <- Hcat. now rewrite app_assoc.
    + apply Forall_snoc. split; trivial. now destruct current.
    + rewrite last_last. replace (S k - 1) with k by lia.
      symmetry. now apply nth_error_nth.
    + apply Forall_snoc. split; trivial.
      apply chained_snoc; trivial. now rewrite <- Hq.
    + intros P1 P2 Hadj.
      apply adjacent_snoc in Hadj. destruct Hadj as [Hadj | [-> [l1 ->]]].
      * apply Hsep. destruct Hadj as (l1 & l2 & ->).
        exists l1, (l2 ++ [current]).
        rewrite <- app_assoc. reflexivity.
      * rewrite hd_app_nonempty by assumption.
        apply Hsep. exists l1, []. rewrite <- app_assoc. reflexivity.
  - apply Qltb_false in Eclose.
    repeat split.
    + rewrite concat_snoc. rewrite (firstn_snoc _ _ _ Ep).
      now rewrite <- Hcat.
    + apply Forall_snoc. split; [|discriminate].
      apply Forall_snoc. now split.
    + replace (S k - 1) with k by lia. symmetry. now apply nth_error_nth.
    + apply Forall_snoc. split; [|apply chained_single].
      apply Forall_snoc. now split.
    + intros P1 P2 Hadj.
      apply adjacent_snoc in Hadj. destruct Hadj as [Hadj | [-> [l1 Hl1]]].
      * now apply Hsep.
      * apply app_inj_tail in Hl1. destruct Hl1 as [_ <-].
        simpl. now rewrite <- Hq.
Qed.

(** One pass of the loop raises nothing when the peaks are samples. *)
Lemma group_step_Ok (timestamps : list Q) (peaks : list nat) (k : nat)
    (st : list (list nat) * list nat) :
  1 <= k -> k < length peaks ->
  in_range (length timestamps) peaks ->
  exists st', group_step timestamps peaks st k = Ok st'.
Proof.
  intros Hk Hlen Hin.
  destruct st as [plateaus current]. unfold group_step.
  assert (Hnth : forall j, j < length peaks ->
            nth j peaks O < length timestamps).
  { intros j Hj. unfold in_range in Hin. rewrite Forall_forall in Hin.
    apply Hin. now apply nth_In. }
  rewrite (getitem_lt peaks k O) by lia. simpl.
  rewrite iloc_lt by (apply Hnth; lia). simpl.
  rewrite (getitem_lt peaks (k - 1) O) by lia. simpl.
  rewrite iloc_lt by (apply Hnth; lia). simpl.
  destruct (Qltb _ threshold); eauto.
Qed.

Lemma group_loop_grouped (timestamps : list Q) (peaks : list nat) :
  forall m k st st', 1 <= k ->
    grouped timestamps peaks k st ->
    for_each (group_step timestamps peaks) st (seq k m) = Ok st' ->
    grouped timestamps peaks (k + m) st'.
Proof.
  induction m as [|m IH]; intros k st st' Hk Hinv Hrun; simpl in Hrun.
  - inversion Hrun. subst. now rewrite Nat.add_0_r.
  - inv_bind Hrun. rename v into st1.
    replace (k + S m) with (S k + m) by lia.
    apply (IH (S k) st1); [lia | | assumption].
    eapply group_step_grouped; eassumption.
Qed.

Lemma group_loop_Ok (timestamps : list Q) (peaks : list nat) :
  in_range (length timestamps) peaks ->
  forall m k st, 1 <= k -> k + m <= length peaks ->
    exists st', for_each (group_step timestamps peaks) st (seq k m) = Ok st'.
Proof.
  intro Hin. induction m as [|m IH]; intros k st Hk Hlen; simpl.
  - eauto.
  - destruct (group_step_Ok timestamps peaks k st) as [st1 E]; trivial; [lia|].
    rewrite E. simpl. apply IH; lia.
Qed.

(** What the segmenter returns, whenever it returns. *)
Lemma group_peaks_grouped (timestamps : list Q) (peaks : list nat)
    (plateaus : list (list nat)) :
  group_peaks timestamps peaks = Ok plateaus ->
  concat plateaus = peaks /\
  Forall (fun P => P <> []) plateaus /\
  Forall (chained timestamps) plateaus /\
  separated timestamps plateaus.
Proof.
  unfold group_peaks. intro H.
  inv_bind H. rename v into p0, E into Ep0.
  inv_bind H. destruct v as [done current]. inversion H; subst plateaus.
  apply group_loop_grouped in E; [|lia|].
  - unfold grouped in E. cbn [fst snd] in E.
    destruct E as (Hcat & Hne & _ & Hch & Hsep).
    apply getitem_Ok_lt in Ep0.
    replace (1 + (length peaks - 1)) with (length peaks) in Hcat by lia.
    rewrite firstn_all in Hcat. auto.
  - apply getitem_Ok in Ep0.
    destruct peaks as [|p rest]; simpl in Ep0; [discriminate|].
    inversion Ep0; subst p0.
    unfold grouped. cbn [fst snd]. repeat split.
    + constructor; [discriminate | constructor].
    + constructor; [apply chained_single | constructor].
    + intros P1 P2 Hadj. now apply adjacent_single in Hadj.
Qed.

(** The segmenter returns on every non-empty list of sample indices. *)
Lemma group_peaks_Ok (timestamps : list Q) (peaks : list nat) :
  peaks <> [] -> in_range (length timestamps) peaks ->
  exists plateaus, group_peaks timestamps peaks = Ok plateaus.
Proof.
  intros Hne Hin.
  destruct peaks as [|p0 rest]; [congruence|].
  destruct (group_loop_Ok timestamps (p0 :: rest) Hin
              (length (p0 :: rest) - 1) 1 ([], [p0])) as [[done cur] E];
    [lia | simpl; lia |].
  unfold group_peaks, getitem. cbn [nth_error bind].
  rewrite E. cbn [bind]. eauto.
Qed.

(* ------------------------------------------------------------------ *)
(** ** Highest peak of a plateau *)

Lemma first_max_in (signal : list Q) (plateau : list nat) (h : nat) :
  first_max signal plateau h -> In h plateau.
Proof.
  intros (before & after & -> & _). apply in_or_app. right. now left.
Qed.

Lemma first_max_single (signal : list Q) (p : nat) : first_max signal [p] p.
Proof. exists [], []. repeat split; constructor. Qed.

(** A later item with a strictly greater force becomes the maximum. *)
Lemma first_max_replace (signal : list Q) (seen : list nat) (m it : nat) :
  first_max signal seen m ->
  (item signal m < item signal it)%Q ->
  first_max signal (seen ++ [it]) it.
Proof.
  intros (before & after & -> & Hb & Ha) Hlt.
  exists (before ++ m :: after), []. repeat split; [|constructor].
  apply Forall_app. split.
  - eapply Forall_impl; [|exact Hb]. cbv beta. intros a Ha'.
    eapply Qlt_trans; eassumption.
  - constructor; trivial.
    eapply Forall_impl; [|exact Ha]. cbv beta. intros a Ha'.
    eapply Qle_lt_trans; eassumption.
Qed.

(** A later item that is not strictly greater leaves the maximum alone. *)
Lemma first_max_keep (signal : list Q) (seen : list nat) (m it : nat) :
  first_max signal seen m ->
  (item signal it <= item signal m)%Q ->
  first_max signal (seen ++ [it]) m.
Proof.
  intros (before & after & -> & Hb & Ha) Hle.
  exists before, (after ++ [it]). repeat split; trivial.
  - rewrite <- app_assoc. reflexivity.
  - apply Forall_snoc. now split.
Qed.

Lemma max_loop_first_max (signal : list Q) :
  forall rest seen m h,
    first_max signal seen m ->
    max_loop (fun idx => iloc signal idx) rest m (item signal m) = Ok h ->
    first_max signal (seen ++ rest) h.
Proof.
  induction rest as [|it rest IH]; intros seen m h Hm Hrun; simpl in Hrun.
  - inversion Hrun; subst. now rewrite app_nil_r.
  - inv_bind Hrun. apply iloc_Ok in E. destruct E as [_ ->].
    replace (seen ++ it :: rest) with ((seen ++ [it]) ++ rest)
      by (rewrite <- app_assoc; reflexivity).
    destruct (Qltb (item signal m) (item signal it)) eqn:Egt.
    + apply Qltb_true in Egt.
      apply (IH _ it); trivial. now apply first_max_replace with m.
    + apply Qltb_false in Egt.
      apply (IH _ m); trivial. now apply first_max_keep.
Qed.

Lemma max_loop_Ok (signal : list Q) :
  forall rest m v, in_range (length signal) rest ->
    exists h, max_loop (fun idx => iloc signal idx) rest m v = Ok h.
Proof.
  induction rest as [|it rest IH]; intros m v Hin; simpl.
  - eauto.
  - inversion Hin; subst. rewrite iloc_lt by assumption. cbn [bind].
    destruct (Qltb v (item signal it)); now apply IH.
Qed.

Lemma highest_peak_idx_first_max (signal : list Q) (plateau : list nat) (h : nat) :
  highest_peak_idx signal plateau = Ok h -> first_max signal plateau h.
Proof.
  unfold highest_peak_idx, py_max. destruct plateau as [|p rest]; [discriminate|].
  intro H. inv_bind H. apply iloc_Ok in E. destruct E as [_ ->].
  apply (max_loop_first_max signal rest [p] p h); trivial.
  apply first_max_single.
Qed.

Lemma highest_peak_idx_Ok (signal : list Q) (plateau : list nat) :
  plateau <> [] -> in_range (length signal) plateau ->
  exists h, highest_peak_idx signal plateau = Ok h.
Proof.
  intros Hne Hin. unfold highest_peak_idx, py_max.
  destruct plateau as [|p rest]; [congruence|].
  inversion Hin; subst. rewrite iloc_lt by assumption. cbn [bind].
  now apply max_loop_Ok.
Qed.

(* ------------------------------------------------------------------ *)
(** ** Onset of a plateau *)

(** The backward scan over the samples [n-1 .. 0]: either it stops at the
    last sample at or under the baseline, or there is none and the index it
    was given comes back. *)
Lemma scan_back_spec (signal : list Q) (dflt : nat) :
  forall n s, scan_back signal n dflt = Ok s ->
    (s < n /\ (item signal s <= baseline)%Q /\
       forall k, s < k < n -> (baseline < item signal k)%Q) \/
    (s = dflt /\ forall k, k < n -> (baseline < item signal k)%Q).
Proof.
  induction n as [|n IH]; intros s H; simpl in H.
  - right. inversion H. split; [reflexivity | intros; lia].
  - inv_bind H. apply iloc_Ok in E. destruct E as [_ ->].
    destruct (Qle_bool (item signal n) baseline) eqn:Ele.
    + left. inversion H; subst s. apply Qle_bool_iff in Ele.
      repeat split; [lia | assumption | intros; lia].
    + assert (Hn : (baseline < item signal n)%Q).
      { apply Qnot_le_lt. intro Hle. apply Qle_bool_iff in Hle. congruence. }
      destruct (IH s H) as [(Hs & Hle & Habove) | (Hs & Habove)].
      * left. repeat split; [lia | assumption |].
        intros k Hk. destruct (Nat.eq_dec k n) as [->|]; [assumption|].
        apply Habove. lia.
      * right. split; trivial.
        intros k Hk. destruct (Nat.eq_dec k n) as [->|]; [assumption|].
        apply Habove. lia.
Qed.

Lemma scan_back_Ok (signal : list Q) (dflt : nat) :
  forall n, n <= length signal -> exists s, scan_back signal n dflt = Ok s.
Proof.
  induction n as [|n IH]; intro Hn; simpl.
  - eauto.
  - rewrite iloc_lt by lia. cbn [bind].
    destruct (Qle_bool (item signal n) baseline); [eauto | apply IH; lia].
Qed.

Lemma start_idx_spec (signal : list Q) (plateau : list nat) (s : nat) :
  start_idx signal plateau = Ok s ->
  exists first_peak, getitem plateau 0 = Ok first_peak /\
    ((s < first_peak /\ (item signal s <= baseline)%Q /\
        forall k, s < k < first_peak -> (baseline < item signal k)%Q) \/
     (s = first_peak /\
        forall k, k < first_peak -> (baseline < item signal k)%Q)).
Proof.
  unfold start_idx. intro H. inv_bind H.
  exists v. split; trivial. now apply scan_back_spec.
Qed.

Lemma start_idx_Ok (signal : list Q) (plateau : list nat) :
  plateau <> [] -> in_range (length signal) plateau ->
  exists s, start_idx signal plateau = Ok s.
Proof.
  intros Hne Hin. unfold start_idx.
  destruct plateau as [|p rest]; [congruence|].
  inversion Hin; subst. unfold getitem. cbn [nth_error bind].
  apply scan_back_Ok. lia.
Qed.

(* ------------------------------------------------------------------ *)
(** ** One plateau, and the loop over plateaus *)

Lemma analyse_plateau_Ok (timestamps signal : list Q) (plateau : list nat) :
  length timestamps = length signal ->
  plateau <> [] -> in_range (length signal) plateau ->
  exists row line, analyse_plateau timestamps signal plateau = Ok (row, line).
Proof.
  intros Hlen Hne Hin. unfold analyse_plateau.
  destruct (highest_peak_idx_Ok signal plateau Hne Hin) as [h Eh].
  destruct (start_idx_Ok signal plateau Hne Hin) as [s Es].
  rewrite Eh, Es. cbn [bind].
  assert (Hh : h < length signal).
  { apply highest_peak_idx_first_max, first_max_in in Eh.
    unfold in_range in Hin. rewrite Forall_forall in Hin. auto. }
  assert (Hs : s < length signal).
  { destruct (start_idx_spec _ _ _ Es) as (p0 & Ep0 & Hcase).
    assert (p0 < length signal).
    { destruct plateau as [|p rest]; [congruence|].
      inversion Ep0; subst. now inversion Hin. }
    destruct Hcase as [[? _] | [-> _]]; lia. }
  rewrite !iloc_lt by lia. cbn [bind]. eauto.
Qed.

(** The loop over plateaus appends one row and one line per plateau, each
    computed from that plateau alone. *)
Lemma rfd_loop_rows (timestamps signal : list Q) :
  forall plateaus rows0 lines0 rows lines,
    for_each (rfd_step timestamps signal) (rows0, lines0) plateaus
      = Ok (rows, lines) ->
    exists new_rows new_lines,
      rows = rows0 ++ new_rows /\ lines = lines0 ++ new_lines /\
      Forall2 (fun plateau row => exists line,
                 analyse_plateau timestamps signal plateau = Ok (row, line))
              plateaus new_rows /\
      Forall2 (fun plateau line => exists row,
                 analyse_plateau timestamps signal plateau = Ok (row, line))
              plateaus new_lines.
Proof.
  induction plateaus as [|P plateaus IH]; intros rows0 lines0 rows lines H;
    simpl in H.
  - inversion H; subst. exists [], []. rewrite !app_nil_r.
    repeat split; constructor.
  - inv_bind H. unfold rfd_step in E. inv_bind E.
    destruct v0 as [row line]. inversion E; subst v. clear E.
    apply IH in H. destruct H as (nr & nl & -> & -> & Hrows & Hlines).
    exists (row :: nr), (line :: nl). rewrite <- !app_assoc.
    repeat split; constructor; eauto.
Qed.

Lemma rfd_loop_Ok (timestamps signal : list Q) :
  length timestamps = length signal ->
  forall plateaus st,
    Forall (fun P => P <> [] /\ in_range (length signal) P) plateaus ->
    exists st', for_each (rfd_step timestamps signal) st plateaus = Ok st'.
Proof.
  intro Hlen. induction plateaus as [|P plateaus IH]; intros st Hall; simpl.
  - eauto.
  - inversion Hall as [|? ? [Hne Hin] Hrest]; subst.
    destruct st as [rows lines]. unfold rfd_step at 1.
    destruct (analyse_plateau_Ok timestamps signal P Hlen Hne Hin)
      as (row & line & E).
    rewrite E. cbn [bind]. now apply IH.
Qed.

(** The fields of a row, in terms of the two indices it is computed from. *)
Lemma analyse_plateau_fields (timestamps signal : list Q) (plateau : list nat)
    (row : RFDResult) (line : RFDLine) :
  analyse_plateau timestamps signal plateau = Ok (row, line) ->
  exists highest start,
    highest_peak_idx signal plateau = Ok highest /\
    start_idx signal plateau = Ok start /\
    (start < length timestamps /\ highest < length timestamps /\
     highest < length signal) /\
    Plateau_Start_Time row = item timestamps start /\
    Peak_Time row = item timestamps highest /\
    Time_to_Peak_s row
      = time_to_peak_of (item timestamps highest) (item timestamps start) /\
    Peak_Value_N row = item signal highest /\
    Peak_Value_kg row = (item signal highest / GRAVITY)%Q /\
    RFD_N_s row = rfd_of (Peak_Value_N row) (Time_to_Peak_s row) /\
    RFD_kg_s row
      = option_map (fun r => (r / GRAVITY)%Q)
          (rfd_of (Peak_Value_N row) (Time_to_Peak_s row)) /\
    line = {| start_time := Plateau_Start_Time row;
              end_time := Peak_Time row;
              start_value := 0;
              end_value := Peak_Value_N row |}.
Proof.
  unfold analyse_plateau. intro H.
  inv_bind H. rename v into highest, E into Eh.
  inv_bind H. rename v into start, E into Es.
  inv_bind H. apply iloc_Ok in E. destruct E as [Hs ->].
  inv_bind H. apply iloc_Ok in E. destruct E as [Hh ->].
  inv_bind H. apply iloc_Ok in E. destruct E as [Hh' ->].
  inversion H; subst row line; clear H. cbn.
  exists highest, start.
  repeat split; trivial;
    destruct (rfd_of (item signal highest)
                (time_to_peak_of (item timestamps highest)
                                 (item timestamps start))); reflexivity.
Qed.

(* ------------------------------------------------------------------ *)
(** ** Plateaus of an increasing list of peaks *)

Lemma StronglySorted_app_l {A : Type} (R : A -> A -> Prop) (l1 l2 : list A) :
  StronglySorted R (l1 ++ l2) -> StronglySorted R l1.
Proof.
  induction l1 as [|a l1 IH]; intro H; [constructor|].
  simpl in H. apply StronglySorted_inv in H. destruct H as [Hs Hall].
  constructor; [auto|]. apply Forall_app in Hall. tauto.
Qed.

Lemma StronglySorted_app_r {A : Type} (R : A -> A -> Prop) (l1 l2 : list A) :
  StronglySorted R (l1 ++ l2) -> StronglySorted R l2.
Proof.
  induction l1 as [|a l1 IH]; intro H; [assumption|].
  simpl in H. apply StronglySorted_inv in H. tauto.
Qed.

Lemma StronglySorted_concat_in {A : Type} (R : A -> A -> Prop)
    (ls : list (list A)) (l : list A) :
  StronglySorted R (concat ls) -> In l ls -> StronglySorted R l.
Proof.
  induction ls as [|l0 ls IH]; intros Hs Hin; [easy|].
  simpl in Hs. destruct Hin as [->|Hin].
  - eapply StronglySorted_app_l; eassumption.
  - apply IH; trivial. eapply StronglySorted_app_r; eassumption.
Qed.

Lemma StronglySorted_lt_NoDup (l : list nat) : StronglySorted lt l -> NoDup l.
Proof.
  induction 1 as [|a l Hs IH Hall]; constructor; trivial.
  intro Hin. rewrite Forall_forall in Hall. specialize (Hall a Hin). lia.
Qed.

Lemma StronglySorted_lt_hd (l : list nat) (p : nat) :
  StronglySorted lt l -> In p l -> hd O l <= p.
Proof.
  intros Hs Hin. destruct l as [|a l]; [easy|]. simpl.
  destruct Hin as [->|Hin]; [lia|].
  apply StronglySorted_inv in Hs. destruct Hs as [_ Hall].
  rewrite Forall_forall in Hall. specialize (Hall p Hin). lia.
Qed.

Lemma NoDup_app_disjoint {A : Type} (l1 l2 : list A) (a : A) :
  NoDup (l1 ++ l2) -> In a l1 -> ~ In a l2.
Proof.
  induction l1 as [|b l1 IH]; intros Hnd Hin; [easy|].
  simpl in Hnd. apply NoDup_cons_iff in Hnd. destruct Hnd as [Hnotin Hnd].
  destruct Hin as [->|Hin]; [|now apply IH].
  intro Hin2. apply Hnotin. apply in_or_app. now right.
Qed.

(** Lists chained into a duplicate-free list share no element. *)
Lemma NoDup_concat_disjoint {A : Type} (ls : list (list A)) :
  NoDup (concat ls) ->
  ForallOrdPairs (fun l1 l2 => forall a, In a l1 -> ~ In a l2) ls.
Proof.
  induction ls as [|l ls IH]; intro Hnd; constructor.
  - simpl in Hnd. rewrite Forall_forall. intros l2 Hl2 a Ha Ha2.
    apply (NoDup_app_disjoint _ _ a Hnd Ha).
    apply in_concat. eauto.
  - apply IH. simpl in Hnd. eapply NoDup_app_remove_l; eassumption.
Qed.

Lemma in_range_concat_in (n : nat) (ls : list (list nat)) (l : list nat) :
  in_range n (concat ls) -> In l ls -> in_range n l.
Proof.
  unfold in_range. rewrite !Forall_forall. intros H Hin i Hi.
  apply H. apply in_concat. eauto.
Qed.

Lemma find_peaks_in_range_all (x : list Q) : in_range (length x) (find_peaks x).
Proof.
  unfold in_range. rewrite Forall_forall. intros p Hp.
  apply find_peaks_in_range in Hp. lia.
Qed.

(* ------------------------------------------------------------------ *)
(** ** Onset search *)

(** C1, as stated, does not hold: in a recording whose only sample before
    the first peak (index 1) is above the baseline, the onset search returns
    the first peak index itself, which is neither smaller than the first
    peak index nor index 0. *)
Lemma start_idx_no_rest_sample :
  find_peaks no_rest_signal = [1] /\
  (forall k, k < 1 -> (baseline < item no_rest_signal k)%Q) /\
  start_idx no_rest_signal [1] = Ok 1 /\
  ~ (1 < 1) /\ 1 <> 0.
Proof.
  repeat split; try reflexivity; try lia.
  intros k Hk. replace k with 0 by lia. reflexivity.
Qed.

(** C1 (amended).  The onset search for a plateau returns an index that is
    never less than 0 and never greater than the plateau's first peak index.
    When some sample before the first peak is at or under the baseline
    (0.1 N), the onset is the last such sample, hence smaller than the first
    peak index; when there is none, the onset is the first peak index
    itself. *)
Theorem start_idx_range (signal : list Q) (plateau : list nat)
    (first_peak : nat) :
  getitem plateau 0 = Ok first_peak ->
  first_peak <= length signal ->
  exists s, start_idx signal plateau = Ok s /\
    0 <= s <= first_peak /\
    ((exists k, k < first_peak /\ (item signal k <= baseline)%Q) ->
       s < first_peak /\ (item signal s <= baseline)%Q /\
       forall k, s < k < first_peak -> (baseline < item signal k)%Q) /\
    ((forall k, k < first_peak -> (baseline < item signal k)%Q) ->
       s = first_peak).
Proof.
  intros Hfirst Hlen.
  destruct (scan_back_Ok signal first_peak first_peak Hlen) as [s Es].
  exists s. split.
  - unfold start_idx. rewrite Hfirst. exact Es.
  - destruct (scan_back_spec _ _ _ _ Es) as [(Hs & Hle & Habove) | (-> & Habove)].
    + split; [lia|]. split; [auto|].
      intro Hall. exfalso. apply (Qlt_not_le _ _ (Hall s Hs) Hle).
    + split; [lia|]. split; [|reflexivity].
      intros (k & Hk & Hle). exfalso. apply (Qlt_not_le _ _ (Habove k Hk) Hle).
Qed.

Lemma start_idx_range_witness :
  (getitem [3; 7] 0 = Ok 3 /\ 3 <= length scenario_signal) /\
  exists s, start_idx scenario_signal [3; 7] = Ok s /\
    0 <= s <= 3 /\
    ((exists k, k < 3 /\ (item scenario_signal k <= baseline)%Q) ->
       s < 3 /\ (item scenario_signal s <= baseline)%Q /\
       forall k, s < k < 3 -> (baseline < item scenario_signal k)%Q) /\
    ((forall k, k < 3 -> (baseline < item scenario_signal k)%Q) -> s = 3).
Proof.
  split.
  - split; [reflexivity | simpl; lia].
  - apply (start_idx_range scenario_signal [3; 7] 3); [reflexivity | simpl; lia].
Defined.

(* ------------------------------------------------------------------ *)
(** ** Recordings without a peak *)

(** C2, as stated, does not hold: on a recording of two samples the peak
    finder returns no peak and the pipeline raises an index error where it
    seeds the first plateau; it does not report an empty result set. *)
Lemma short_recording_raises :
  length short_signal < 3 /\
  find_peaks short_signal = [] /\
  rfd_results short_timestamps short_signal = Raise IndexError /\
  rfd_results short_timestamps short_signal <> Ok [].
Proof.
  repeat split; try reflexivity; [simpl; lia | discriminate].
Qed.

(** C2 (amended).  For a recording with fewer than 3 samples, or any
    recording in which the peak finder returns zero peaks, the pipeline
    stops with an index error when it seeds the first plateau from the
    first peak, and reports no result set. *)
Theorem analysis_without_peaks (timestamps signal : list Q) :
  length signal < 3 \/ find_peaks signal = [] ->
  find_peaks signal = [] /\
  group_peaks timestamps (find_peaks signal) = Raise IndexError /\
  analysis timestamps signal = Raise IndexError /\
  rfd_results timestamps signal = Raise IndexError.
Proof.
  intro H.
  assert (Hnone : find_peaks signal = [])
    by (destruct H; [now apply find_peaks_short | assumption]).
  unfold rfd_results, analysis. rewrite Hnone. repeat split.
Qed.

Lemma analysis_without_peaks_witness :
  (length short_signal < 3 \/ find_peaks short_signal = []) /\
  find_peaks short_signal = [] /\
  group_peaks short_timestamps (find_peaks short_signal) = Raise IndexError /\
  analysis short_timestamps short_signal = Raise IndexError /\
  rfd_results short_timestamps short_signal = Raise IndexError.
Proof.
  split.
  - left. simpl. lia.
  - apply (analysis_without_peaks short_timestamps short_signal).
    left. simpl. lia.
Defined.

(* ------------------------------------------------------------------ *)
(** ** Plateaus partition the peaks *)

(** C3.  For every non-empty list of peak indices (indices of samples of the
    recording), the segmenter returns an ordered list of non-empty plateaus
    whose concatenation is the list of peaks exactly: no peak is omitted or
    duplicated and the order of the peaks is kept; when the peaks are
    pairwise distinct, two different plateaus share no peak, so every peak
    is in exactly one plateau.  This holds for every timestamp sequence, in
    particular for the non-decreasing ones. *)
Theorem group_peaks_partition (timestamps : list Q) (peaks : list nat) :
  peaks <> [] ->
  in_range (length timestamps) peaks ->
  exists plateaus,
    group_peaks timestamps peaks = Ok plateaus /\
    concat plateaus = peaks /\
    Forall (fun P => P <> []) plateaus /\
    (NoDup peaks ->
     ForallOrdPairs (fun P1 P2 => forall p, In p P1 -> ~ In p P2) plateaus).
Proof.
  intros Hne Hin.
  destruct (group_peaks_Ok timestamps peaks Hne Hin) as [plateaus E].
  exists plateaus. split; trivial.
  destruct (group_peaks_grouped _ _ _ E) as (Hcat & Hnonempty & _).
  repeat split; trivial.
  intro Hnd. apply NoDup_concat_disjoint. now rewrite Hcat.
Qed.

Lemma group_peaks_partition_witness :
  ([1; 3] <> [] /\ in_range (length apart_timestamps) [1; 3]) /\
  exists plateaus,
    group_peaks apart_timestamps [1; 3] = Ok plateaus /\
    concat plateaus = [1; 3] /\
    Forall (fun P => P <> []) plateaus /\
    (NoDup [1; 3] ->
     ForallOrdPairs (fun P1 P2 => forall p, In p P1 -> ~ In p P2) plateaus).
Proof.
  assert (Hin : in_range (length apart_timestamps) [1; 3])
    by (repeat constructor).
  split.
  - split; [discriminate | exact Hin].
  - apply (group_peaks_partition apart_timestamps [1; 3]);
      [discriminate | exact Hin].
Defined.

(* ------------------------------------------------------------------ *)
(** ** Gaps inside and between plateaus *)

(** C4.  In every plateau the segmenter returns, two consecutive peaks are
    strictly less than 5000 ms apart, and the last peak of a plateau is at
    least 5000 ms before the first peak of the next plateau.  Membership is
    decided against the preceding peak only, so a plateau may span more than
    5000 ms: the three peaks of [chain_signal], 4000 ms apart, form one
    plateau 8000 ms long. *)
Theorem group_peaks_gaps (timestamps : list Q) (peaks : list nat) :
  peaks <> [] ->
  in_range (length timestamps) peaks ->
  (exists plateaus,
     group_peaks timestamps peaks = Ok plateaus /\
     Forall (chained timestamps) plateaus /\
     separated timestamps plateaus) /\
  (exists plateau,
     group_peaks chain_timestamps (find_peaks chain_signal) = Ok [plateau] /\
     (threshold < gap chain_timestamps (hd O plateau) (last plateau O))%Q).
Proof.
  intros Hne Hin. split.
  - destruct (group_peaks_Ok timestamps peaks Hne Hin) as [plateaus E].
    exists plateaus. split; trivial.
    destruct (group_peaks_grouped _ _ _ E) as (_ & _ & Hch & Hsep).
    now split.
  - exists [1; 3; 5]. split; reflexivity.
Qed.

Lemma group_peaks_gaps_witness :
  ([1; 3] <> [] /\ in_range (length apart_timestamps) [1; 3]) /\
  (exists plateaus,
     group_peaks apart_timestamps [1; 3] = Ok plateaus /\
     Forall (chained apart_timestamps) plateaus /\
     separated apart_timestamps plateaus) /\
  (exists plateau,
     group_peaks chain_timestamps (find_peaks chain_signal) = Ok [plateau] /\
     (threshold < gap chain_timestamps (hd O plateau) (last plateau O))%Q).
Proof.
  assert (Hin : in_range (length apart_timestamps) [1; 3])
    by (repeat constructor).
  split.
  - split; [discriminate | exact Hin].
  - apply (group_peaks_gaps apart_timestamps [1; 3]);
      [discriminate | exact Hin].
Defined.

(* ------------------------------------------------------------------ *)
(** ** RFD of a plateau *)

Lemma rfd_of_cases (peak_value time_to_peak : Q) :
  ((time_to_peak <= 0)%Q -> rfd_of peak_value time_to_peak = None) /\
  ((0 < time_to_peak)%Q ->
     rfd_of peak_value time_to_peak = Some (peak_value / time_to_peak)%Q).
Proof.
  unfold rfd_of. split; intro H.
  - apply Qltb_false in H. now rewrite H.
  - apply Qltb_true in H. now rewrite H.
Qed.

Lemma Forall2_impl_in {A B : Type} (R R' : A -> B -> Prop)
    (l : list A) (l' : list B) :
  (forall a b, In a l -> R a b -> R' a b) ->
  Forall2 R l l' -> Forall2 R' l l'.
Proof.
  intros Himp H. induction H as [|a b l l' Hab H IH]; constructor.
  - apply Himp; [now left | assumption].
  - apply IH. intros a' b' Hin. apply Himp. now right.
Qed.

(** C5.  The loop over plateaus returns one row per plateau, each computed
    from its own plateau alone.  In every row the RFD is absent ([None], in
    the N/s and in the kg/s field) whenever the time to peak is at most 0,
    and is the peak force divided by the time to peak (over gravity for
    kg/s) whenever the time to peak is positive.  A plateau whose time to
    peak is degenerate raises nothing: the loop goes on and the other rows
    are what they would be without it. *)
Theorem rfd_absent_or_quotient (timestamps signal : list Q)
    (plateaus : list (list nat)) :
  length timestamps = length signal ->
  Forall (fun P => P <> [] /\ in_range (length signal) P) plateaus ->
  exists rows lines,
    for_each (rfd_step timestamps signal) ([], []) plateaus = Ok (rows, lines) /\
    Forall2
      (fun plateau row =>
         (exists line,
            analyse_plateau timestamps signal plateau = Ok (row, line)) /\
         ((Time_to_Peak_s row <= 0)%Q ->
            RFD_N_s row = None /\ RFD_kg_s row = None) /\
         ((0 < Time_to_Peak_s row)%Q ->
            RFD_N_s row = Some (Peak_Value_N row / Time_to_Peak_s row)%Q /\
            RFD_kg_s row
              = Some (Peak_Value_N row / Time_to_Peak_s row / GRAVITY)%Q))
      plateaus rows.
Proof.
  intros Hlen Hall.
  destruct (rfd_loop_Ok timestamps signal Hlen plateaus ([], []) Hall)
    as [[rows lines] E].
  exists rows, lines. split; trivial.
  destruct (rfd_loop_rows _ _ _ _ _ _ _ E) as (nr & nl & -> & _ & Hrows & _).
  simpl. eapply Forall2_impl_in; [|exact Hrows].
  cbv beta. intros P row _ [line Erow]. split; [eauto|].
  destruct (analyse_plateau_fields _ _ _ _ _ Erow)
    as (h & s & _ & _ & _ & _ & _ & _ & _ & _ & HN & Hkg & _).
  destruct (rfd_of_cases (Peak_Value_N row) (Time_to_Peak_s row)) as [H0 H1].
  split; intro Ht.
  - rewrite HN, Hkg, (H0 Ht). split; reflexivity.
  - rewrite HN, Hkg, (H1 Ht). split; reflexivity.
Qed.

Lemma rfd_absent_or_quotient_witness :
  (length mixed_timestamps = length mixed_signal /\
   Forall (fun P => P <> [] /\ in_range (length mixed_signal) P) [[1]; [4]]) /\
  exists rows lines,
    for_each (rfd_step mixed_timestamps mixed_signal) ([], []) [[1]; [4]]
      = Ok (rows, lines) /\
    Forall2
      (fun plateau row =>
         (exists line,
            analyse_plateau mixed_timestamps mixed_signal plateau
              = Ok (row, line)) /\
         ((Time_to_Peak_s row <= 0)%Q ->
            RFD_N_s row = None /\ RFD_kg_s row = None) /\
         ((0 < Time_to_Peak_s row)%Q ->
            RFD_N_s row = Some (Peak_Value_N row / Time_to_Peak_s row)%Q /\
            RFD_kg_s row
              = Some (Peak_Value_N row / Time_to_Peak_s row / GRAVITY)%Q))
      [[1]; [4]] rows.
Proof.
  assert (Hall : Forall (fun P => P <> [] /\ in_range (length mixed_signal) P)
                   [[1]; [4]]).
  { repeat constructor; discriminate. }
  split.
  - split; [reflexivity | exact Hall].
  - apply (rfd_absent_or_quotient mixed_timestamps mixed_signal [[1]; [4]]);
      [reflexivity | exact Hall].
Defined.

(* ------------------------------------------------------------------ *)
(** ** Highest peak *)

(** C6.  The highest-peak selection is a function of the signal and the
    plateau, and on every plateau it returns the first index of the plateau
    whose force is maximal: every index before it in the plateau has a
    strictly smaller force, every index after it a force that is not
    greater. *)
Theorem highest_peak_idx_first (signal : list Q) (plateau : list nat) :
  plateau <> [] ->
  in_range (length signal) plateau ->
  exists h,
    highest_peak_idx signal plateau = Ok h /\
    first_max signal plateau h.
Proof.
  intros Hne Hin.
  destruct (highest_peak_idx_Ok signal plateau Hne Hin) as [h E].
  exists h. split; trivial. now apply highest_peak_idx_first_max.
Qed.

Lemma highest_peak_idx_first_witness :
  ([1; 3; 5] <> [] /\ in_range (length chain_signal) [1; 3; 5]) /\
  exists h,
    highest_peak_idx chain_signal [1; 3; 5] = Ok h /\
    first_max chain_signal [1; 3; 5] h.
Proof.
  assert (Hin : in_range (length chain_signal) [1; 3; 5])
    by (repeat constructor).
  split.
  - split; [discriminate | exact Hin].
  - apply (highest_peak_idx_first chain_signal [1; 3; 5]);
      [discriminate | exact Hin].
Defined.

(* ------------------------------------------------------------------ *)
(** ** The scenario of section 8 *)

(** C7.  On the forces [0,0,0,50,0,0,0,80,0,0] at the timestamps
    [0,100,...,900] ms the pipeline finds exactly the peaks 3 and 7, groups
    them into one plateau, selects index 7 as the highest peak and index 2
    as the onset, and reports one row with a time to peak of 0.5 s and an
    RFD of 160 N/s. *)
Theorem scenario_two_peaks :
  find_peaks scenario_signal = [3; 7] /\
  group_peaks scenario_timestamps (find_peaks scenario_signal) = Ok [[3; 7]] /\
  highest_peak_idx scenario_signal [3; 7] = Ok 7 /\
  start_idx scenario_signal [3; 7] = Ok 2 /\
  exists row rfd,
    rfd_results scenario_timestamps scenario_signal = Ok [row] /\
    Time_to_Peak_s row == 1 # 2 /\
    RFD_N_s row = Some rfd /\ rfd == 160.
Proof.
  repeat split; try reflexivity.
  eexists. eexists. repeat split; reflexivity.
Qed.

(* ------------------------------------------------------------------ *)
(** ** What a peak is *)

(** C8, as stated, does not hold: on [0, 2, 2, 0] the peak finder returns
    index 1, whose force equals the force of its right neighbour. *)
Lemma find_peaks_flat_signal :
  find_peaks flat_signal = [1] /\
  item flat_signal 2 == item flat_signal 1 /\
  ~ (item flat_signal 2 < item flat_signal 1)%Q.
Proof.
  repeat split; try reflexivity. intro H. discriminate H.
Qed.

(** C8 (amended).  Every index returned by the peak finder is an inner
    sample (neither the first nor the last) whose force is not smaller than
    the force of either immediate neighbour.  It is the middle, rounded
    down, of a run of equal samples that is strictly higher than the sample
    just before the run and the sample just after it; when the run is a
    single sample, the force at the index is strictly greater than the
    forces of both immediate neighbours. *)
Theorem find_peaks_local_maximum (x : list Q) (p : nat) :
  In p (find_peaks x) ->
  1 <= p /\ p + 1 < length x /\
  (item x (p - 1) <= item x p)%Q /\ (item x (p + 1) <= item x p)%Q /\
  exists left_edge right_edge,
    flat_peak x left_edge right_edge /\
    left_edge <= p <= right_edge /\
    p = (left_edge + right_edge) / 2 /\
    (left_edge = right_edge ->
       (item x (p - 1) < item x p)%Q /\ (item x (p + 1) < item x p)%Q).
Proof.
  intro Hin.
  destruct (find_peaks_in_range x p Hin) as [H1 Hlast].
  destruct (find_peaks_flat x p Hin) as (l & r & Hflat & Hp).
  pose proof Hflat as (Hl1 & Hlr & Hr & Hrise & Heq & Hfall).
  pose proof (midpoint_between l r Hlr) as Hmid. rewrite <- Hp in Hmid.
  assert (Hpl : item x p == item x l) by (apply Heq; lia).
  assert (Hleft : (item x (p - 1) <= item x p)%Q).
  { destruct (Nat.eq_dec p l) as [->|Hne].
    - now apply Qlt_le_weak.
    - rewrite Hpl, (Heq (p - 1)) by lia. apply Qle_refl. }
  assert (Hright : (item x (p + 1) <= item x p)%Q).
  { destruct (Nat.eq_dec p r) as [->|Hne].
    - rewrite Hpl. now apply Qlt_le_weak.
    - rewrite Hpl, (Heq (p + 1)) by lia. apply Qle_refl. }
  split; [exact H1|]. split; [exact Hlast|].
  split; [exact Hleft|]. split; [exact Hright|].
  exists l, r. split; [exact Hflat|]. split; [lia|]. split; [exact Hp|].
  intro Hsingle. subst r. assert (Epl : p = l) by lia.
  rewrite Epl. split; assumption.
Qed.

Lemma find_peaks_local_maximum_witness :
  In 1 (find_peaks flat_signal) /\
  1 <= 1 /\ 1 + 1 < length flat_signal /\
  (item flat_signal (1 - 1) <= item flat_signal 1)%Q /\
  (item flat_signal (1 + 1) <= item flat_signal 1)%Q /\
  exists left_edge right_edge,
    flat_peak flat_signal left_edge right_edge /\
    left_edge <= 1 <= right_edge /\
    1 = (left_edge + right_edge) / 2 /\
    (left_edge = right_edge ->
       (item flat_signal (1 - 1) < item flat_signal 1)%Q /\
       (item flat_signal (1 + 1) < item flat_signal 1)%Q).
Proof.
  assert (Hin : In 1 (find_peaks flat_signal)) by (left; reflexivity).
  split; [exact Hin|].
  apply (find_peaks_local_maximum flat_signal 1 Hin).
Defined.

(* ------------------------------------------------------------------ *)
(** ** Kilograms and newtons *)




(** On binary64 floats the round trip is only approximate: 53 kg comes back
    as the next float above 53. *)
Example round_trip_binary64_inexact :
  PrimFloat.eqb (to_kg_binary64 (to_newtons_binary64 53%float)) 53%float
    = false /\
  to_kg_binary64 (to_newtons_binary64 53%float)
    = PrimFloat.next_up 53%float.
Proof. split; reflexivity. Qed.

(* ------------------------------------------------------------------ *)
(** ** Onset, first peak, highest peak *)

Lemma time_to_peak_of_nonneg (peak_time start_time_ : Q) :
  (start_time_ <= peak_time)%Q ->
  (0 <= time_to_peak_of peak_time start_time_)%Q.
Proof.
  intro H. unfold time_to_peak_of.
  apply Qle_shift_div_l; [reflexivity | lra].
Qed.

(** C10.  On every recording with at least one peak the pipeline returns
    one row per plateau, and for every plateau the onset index is at most
    the plateau's first peak index, which is at most the highest-peak
    index; hence, when the timestamps are non-decreasing, the time to peak
    of every row is not negative. *)
Theorem onset_first_highest (timestamps signal : list Q) :
  length timestamps = length signal ->
  find_peaks signal <> [] ->
  exists plateaus rows,
    group_peaks timestamps (find_peaks signal) = Ok plateaus /\
    rfd_results timestamps signal = Ok rows /\
    Forall2
      (fun plateau row =>
         exists onset highest,
           start_idx signal plateau = Ok onset /\
           highest_peak_idx signal plateau = Ok highest /\
           onset <= hd O plateau <= highest /\
           Time_to_Peak_s row
             = time_to_peak_of (item timestamps highest)
                               (item timestamps onset) /\
           (non_decreasing timestamps -> (0 <= Time_to_Peak_s row)%Q))
      plateaus rows.
Proof.
  intros Hlen Hpeaks.
  pose proof (find_peaks_in_range_all signal) as Hin.
  pose proof (find_peaks_sorted signal) as Hsorted.
  destruct (group_peaks_Ok timestamps (find_peaks signal) Hpeaks) as [plateaus E].
  { now rewrite Hlen. }
  destruct (group_peaks_grouped _ _ _ E) as (Hcat & Hnonempty & _).
  assert (Hall : Forall (fun P => P <> [] /\ in_range (length signal) P)
                   plateaus).
  { rewrite Forall_forall in *. intros P HP. split; [auto|].
    apply in_range_concat_in with plateaus; trivial. now rewrite Hcat. }
  destruct (rfd_loop_Ok timestamps signal Hlen plateaus ([], []) Hall)
    as [[rows lines] Erows].
  exists plateaus, rows. split; trivial. split.
  { unfold rfd_results, analysis. rewrite E. cbn [bind].
    rewrite Erows. reflexivity. }
  destruct (rfd_loop_rows _ _ _ _ _ _ _ Erows) as (nr & nl & -> & _ & Hrows & _).
  simpl. eapply Forall2_impl_in; [|exact Hrows].
  cbv beta. intros P row HP [line Erow].
  destruct (analyse_plateau_fields _ _ _ _ _ Erow)
    as (h & s & Eh & Es & (_ & Hh & _) & _ & _ & Http & _).
  exists s, h. split; trivial. split; trivial.
  assert (Hord : s <= hd O P <= h).
  { split.
    - destruct (start_idx_spec _ _ _ Es) as (p0 & Ep0 & Hcase).
      apply getitem_Ok in Ep0.
      destruct P as [|p P']; simpl in Ep0; [discriminate|].
      inversion Ep0; subst p0. simpl.
      destruct Hcase as [[? _] | [-> _]]; lia.
    - apply StronglySorted_lt_hd.
      + apply StronglySorted_concat_in with plateaus; trivial.
        now rewrite Hcat.
      + eapply first_max_in. apply highest_peak_idx_first_max. exact Eh. }
  split; trivial. split; trivial.
  intro Hmono. rewrite Http. apply time_to_peak_of_nonneg.
  apply Hmono; lia.
Qed.

Lemma onset_first_highest_witness :
  (length scenario_timestamps = length scenario_signal /\
   find_peaks scenario_signal <> []) /\
  exists plateaus rows,
    group_peaks scenario_timestamps (find_peaks scenario_signal)
      = Ok plateaus /\
    rfd_results scenario_timestamps scenario_signal = Ok rows /\
    Forall2
      (fun plateau row =>
         exists onset highest,
           start_idx scenario_signal plateau = Ok onset /\
           highest_peak_idx scenario_signal plateau = Ok highest /\
           onset <= hd O plateau <= highest /\
           Time_to_Peak_s row
             = time_to_peak_of (item scenario_timestamps highest)
                               (item scenario_timestamps onset) /\
           (non_decreasing scenario_timestamps ->
              (0 <= Time_to_Peak_s row)%Q))
      plateaus rows.
Proof.
  split.
  - split; [reflexivity | discriminate].
  - apply (onset_first_highest scenario_timestamps scenario_signal);
      [reflexivity | discriminate].
Defined.

(* ------------------------------------------------------------------ *)
(** ** The peak finder misses no strict local maximum *)

Lemma look_ahead_differs (x : list Q) (v : Q) (i_max fuel i0 : nat) :
  Qeq_bool (item x i0) v = false -> look_ahead x v i_max fuel i0 = i0.
Proof.
  intro H. destruct fuel; simpl; trivial.
  rewrite H, andb_false_r. reflexivity.
Qed.

(** A sample strictly above both neighbours is reported, wherever the scan
    is when it has not passed it yet. *)
Lemma local_maxima_loop_complete (x : list Q) (i : nat) :
  1 <= i -> i + 1 < length x ->
  (item x (i - 1) < item x i)%Q -> (item x (i + 1) < item x i)%Q ->
  forall fuel j, 1 <= j <= i -> length x - 1 - j <= fuel ->
    In i (local_maxima_loop x (length x - 1) fuel j).
Proof.
  intros H1 Hlast Hrise Hfall.
  induction fuel as [|fuel IH]; intros j Hj Hfuel; [lia|].
  rewrite local_maxima_loop_S.
  replace (j <? length x - 1) with true by (symmetry; apply Nat.ltb_lt; lia).
  destruct (Nat.eq_dec j i) as [->|Hne].
  - apply Qltb_true in Hrise. rewrite Hrise.
    rewrite look_ahead_differs.
    + apply Qltb_true in Hfall. rewrite Hfall. left.
      replace (i + (i + 1 - 1)) with (i * 2) by lia.
      apply Nat.div_mul. discriminate.
    + destruct (Qeq_bool (item x (i + 1)) (item x i)) eqn:E; trivial.
      apply Qeq_bool_iff in E. lra.
  - destruct (Qltb (item x (j - 1)) (item x j)) eqn:Erise; [|apply IH; lia].
    pose proof (look_ahead_bounds x (item x j) (length x - 1) (S fuel) (j + 1))
      as Hb.
    pose proof (look_ahead_equal x (item x j) (length x - 1) (S fuel) (j + 1))
      as Heq.
    destruct (Qltb (item x (look_ahead x (item x j) (length x - 1) (S fuel)
                              (j + 1))) (item x j)) eqn:Efall;
      [|apply IH; lia].
    set (i_ahead := look_ahead x (item x j) (length x - 1) (S fuel) (j + 1))
      in *.
    apply Qltb_true in Efall.
    assert (Hrun : forall k, j <= k < i_ahead -> item x k == item x j).
    { intros k Hk. destruct (Nat.eq_dec k j) as [->|]; [reflexivity|].
      apply Heq. lia. }
    right. apply IH; [|lia].
    destruct (Nat.lt_ge_cases i_ahead i) as [|Hle]; [lia|]. exfalso.
    destruct (Nat.eq_dec i i_ahead) as [Ei|Hni].
    + pose proof (Hrun (i - 1)) as Hprev. rewrite Ei in *.
      specialize (Hprev ltac:(lia)). lra.
    + pose proof (Hrun (i - 1) ltac:(lia)) as Hprev.
      pose proof (Hrun i ltac:(lia)) as Hcur. lra.
Qed.

Lemma find_peaks_complete (x : list Q) (i : nat) :
  1 <= i -> i + 1 < length x ->
  (item x (i - 1) < item x i)%Q -> (item x (i + 1) < item x i)%Q ->
  In i (find_peaks x).
Proof.
  intros H1 Hlast Hrise Hfall.
  apply local_maxima_loop_complete; trivial; lia.
Qed.

Lemma find_peaks_NoDup (x : list Q) : NoDup (find_peaks x).
Proof. apply StronglySorted_lt_NoDup, find_peaks_sorted. Qed.

(* ------------------------------------------------------------------ *)
(** ** Two efforts six seconds apart *)

(** Section 8: two peaks 6000 ms apart make two plateaus of one peak. *)
Example apart_two_plateaus :
  find_peaks apart_signal = [1; 3] /\
  group_peaks apart_timestamps (find_peaks apart_signal) = Ok [[1]; [3]].
Proof. split; reflexivity. Qed.

(** With no sample at rest before its only peak, the effort starts at the
    peak: the time to peak is 0 and the RFD is absent. *)
Example no_rest_row :
  exists row,
    rfd_results no_rest_timestamps no_rest_signal = Ok [row] /\
    Time_to_Peak_s row == 0 /\ RFD_N_s row = None /\ RFD_kg_s row = None.
Proof. eexists. repeat split; reflexivity. Qed.

(** A degenerate first effort leaves the second one as it is. *)
Example mixed_rows :
  exists row1 row2 rfd,
    rfd_results mixed_timestamps mixed_signal = Ok [row1; row2] /\
    RFD_N_s row1 = None /\ RFD_kg_s row1 = None /\
    RFD_N_s row2 = Some rfd /\ rfd == 70.
Proof.
  do 3 eexists. repeat split; reflexivity.
Qed.

(* ------------------------------------------------------------------ *)
(** ** Ingestion *)



Lemma device_table_in_time_order : rows_in_time_order device_table.
Proof.
  intros i j ri rj Hij Ei Ej.
  assert (Hj : j < length device_table) by (apply nth_error_Some; congruence).
  simpl in Hj.
  destruct j as [|[|[|j]]]; try lia;
    destruct i as [|[|[|i]]]; try lia;
    simpl in Ei, Ej; inversion Ei; inversion Ej; subst;
    unfold Qle; simpl; lia.
Qed.


(* ------------------------------------------------------------------ *)
(** ** The segmentation is the only one with its gaps *)

Lemma adjacent_cons {A : Type} (a b c : A) (l : list A) :
  adjacent a b l -> adjacent a b (c :: l).
Proof. intros (l1 & l2 & ->). now exists (c :: l1), l2. Qed.

Lemma separated_tail (timestamps : list Q) (P : list nat)
    (plateaus : list (list nat)) :
  separated timestamps (P :: plateaus) -> separated timestamps plateaus.
Proof. intros H P1 P2 Hadj. apply H. now apply adjacent_cons. Qed.

Lemma chained_last_hd (timestamps : list Q) (front back : list nat) :
  chained timestamps (front ++ back) -> front <> [] -> back <> [] ->
  (gap timestamps (last front O) (hd O back) < threshold)%Q.
Proof.
  intros Hch Hf Hb. apply Hch.
  destruct back as [|b back]; [congruence|]. simpl.
  exists (removelast front), back.
  rewrite (app_removelast_last O Hf) at 1. now rewrite <- app_assoc.
Qed.

Lemma concat_starts_with {A : Type} (d : A) (ls : list (list A))
    (front rest : list A) :
  Forall (fun l => l <> []) ls -> front <> [] ->
  concat ls = front ++ rest ->
  exists l ls', ls = l :: ls' /\ hd d l = hd d front.
Proof.
  intros Hne Hf Heq. destruct ls as [|l ls'].
  - destruct front; [congruence | discriminate].
  - exists l, ls'. split; trivial.
    inversion Hne as [|? ? Hl _]; subst.
    destruct l; [congruence|]. destruct front; [congruence|].
    simpl in Heq. inversion Heq. reflexivity.
Qed.

(** A plateau cannot both go on past a point and stop there. *)
Lemma no_cut_inside (timestamps : list Q) (P : list nat)
    (front back : list nat) (others : list (list nat)) (rest : list nat) :
  front <> [] -> back <> [] ->
  chained timestamps (front ++ back) ->
  separated timestamps (front :: others) ->
  Forall (fun l => l <> []) others ->
  concat others = back ++ rest ->
  False.
Proof.
  intros Hf Hb Hch Hsep Hne Heq.
  destruct (concat_starts_with O others back rest Hne Hb Heq)
    as (Q0 & others' & -> & Hhd).
  pose proof (chained_last_hd timestamps front back Hch Hf Hb) as Hlt.
  assert (Hge : (threshold <= gap timestamps (last front O) (hd O Q0))%Q).
  { apply Hsep. now exists [], others'. }
  rewrite Hhd in Hge. apply (Qlt_not_le _ _ Hlt Hge).
Qed.

Lemma segmentation_unique (timestamps : list Q) :
  forall L L' : list (list nat),
    concat L = concat L' ->
    Forall (fun P => P <> []) L -> Forall (fun P => P <> []) L' ->
    Forall (chained timestamps) L -> Forall (chained timestamps) L' ->
    separated timestamps L -> separated timestamps L' ->
    L = L'.
Proof.
  induction L as [|P L IH]; intros L' Hcat Hne Hne' Hch Hch' Hsep Hsep'.
  - destruct L' as [|P' L']; trivial.
    inversion Hne'; subst. simpl in Hcat. destruct P'; [congruence|discriminate].
  - inversion Hne as [|? ? HP HneL]; subst.
    inversion Hch as [|? ? HchP HchL]; subst.
    destruct L' as [|P' L'].
    { simpl in Hcat. destruct P; [congruence|discriminate]. }
    inversion Hne' as [|? ? HP' HneL']; subst.
    inversion Hch' as [|? ? HchP' HchL']; subst.
    simpl in Hcat. apply app_eq_app in Hcat.
    destruct Hcat as [l [[HPeq Htail] | [HPeq Htail]]].
    + destruct l as [|a l].
      * rewrite app_nil_r in HPeq. subst P'. simpl in Htail. f_equal.
        apply IH; auto; eapply separated_tail; eassumption.
      * exfalso. subst P.
        apply (no_cut_inside timestamps P' P' (a :: l) L' (concat L));
          trivial; discriminate.
    + destruct l as [|a l].
      * rewrite app_nil_r in HPeq. subst P'. simpl in Htail. f_equal.
        apply IH; auto; eapply separated_tail; eassumption.
      * exfalso. subst P'.
        apply (no_cut_inside timestamps P P (a :: l) L (concat L'));
          trivial; discriminate.
Qed.

(** X2.  The segmenter's answer is the only way to cut the peaks into
    non-empty plateaus with every gap inside a plateau under 5000 ms and
    every gap between two plateaus at least 5000 ms. *)
Theorem group_peaks_unique (timestamps : list Q) (peaks : list nat)
    (plateaus candidate : list (list nat)) :
  group_peaks timestamps peaks = Ok plateaus ->
  concat candidate = peaks ->
  Forall (fun P => P <> []) candidate ->
  Forall (chained timestamps) candidate ->
  separated timestamps candidate ->
  candidate = plateaus.
Proof.
  intros E Hcat Hne Hch Hsep.
  destruct (group_peaks_grouped _ _ _ E) as (Hcat' & Hne' & Hch' & Hsep').
  apply (segmentation_unique timestamps); trivial. congruence.
Qed.

Lemma chained_pair (timestamps : list Q) (a b : nat) :
  (gap timestamps a b < threshold)%Q -> chained timestamps [a; b].
Proof.
  intros H a' b' (l1 & l2 & Heq).
  destruct l1 as [|x [|y l1]]; inversion Heq; subst; trivial.
  destruct l1; discriminate.
Qed.

Lemma group_peaks_unique_witness :
  (group_peaks scenario_timestamps [3; 7] = Ok [[3; 7]] /\
   concat [[3; 7]] = [3; 7] /\
   Forall (fun P => P <> []) [[3; 7]] /\
   Forall (chained scenario_timestamps) [[3; 7]] /\
   separated scenario_timestamps [[3; 7]]) /\
  [[3; 7]] = [[3; 7]].
Proof.
  assert (Hne : Forall (fun P : list nat => P <> []) [[3; 7]])
    by (repeat constructor; discriminate).
  assert (Hch : Forall (chained scenario_timestamps) [[3; 7]]).
  { repeat constructor. apply chained_pair. reflexivity. }
  assert (Hsep : separated scenario_timestamps [[3; 7]]).
  { intros P1 P2 Hadj. now apply adjacent_single in Hadj. }
  split.
  - repeat split; trivial.
  - apply (group_peaks_unique scenario_timestamps [3; 7] [[3; 7]] [[3; 7]]);
      trivial; reflexivity.
Defined.

(* ------------------------------------------------------------------ *)
(** ** Peaks all close together, peaks all far apart *)

Lemma adjacent_cons_inv {A : Type} (a b x y : A) (l : list A) :
  adjacent a b (x :: y :: l) -> (a = x /\ b = y) \/ adjacent a b (y :: l).
Proof.
  intros (l1 & l2 & H). destruct l1 as [|z l1]; simpl in H.
  - inversion H. now left.
  - right. inversion H. now exists l1, l2.
Qed.

Lemma adjacent_nil {A : Type} (a b : A) : ~ adjacent a b [].
Proof. intros (l1 & l2 & H). destruct l1; discriminate. Qed.

Lemma adjacent_singletons (a b : list nat) (peaks : list nat) :
  adjacent a b (map (fun p => [p]) peaks) ->
  exists p q, a = [p] /\ b = [q] /\ adjacent p q peaks.
Proof.
  intros (l1 & l2 & H).
  apply map_eq_app in H. destruct H as (k1 & k2 & -> & <- & H).
  apply map_eq_cons in H. destruct H as (p & k3 & -> & <- & H).
  apply map_eq_cons in H. destruct H as (q & k4 & -> & <- & <-).
  exists p, q. repeat split. now exists k1, k4.
Qed.

Lemma concat_singletons {A : Type} (l : list A) :
  concat (map (fun a => [a]) l) = l.
Proof. induction l as [|a l IH]; simpl; [reflexivity | now rewrite IH]. Qed.

(** X3.  When every two consecutive peaks are less than 5000 ms apart, the
    segmenter returns a single plateau that holds all the peaks. *)
Theorem group_peaks_all_close (timestamps : list Q) (peaks : list nat) :
  peaks <> [] ->
  in_range (length timestamps) peaks ->
  (forall a b, adjacent a b peaks -> (gap timestamps a b < threshold)%Q) ->
  group_peaks timestamps peaks = Ok [peaks].
Proof.
  intros Hne Hin Hclose.
  destruct (group_peaks_Ok timestamps peaks Hne Hin) as [plateaus E].
  rewrite E. f_equal. symmetry.
  destruct (group_peaks_grouped _ _ _ E) as (Hcat & Hne' & Hch' & Hsep').
  apply (segmentation_unique timestamps); trivial.
  - rewrite Hcat. simpl. apply app_nil_r.
  - constructor; [assumption | constructor].
  - constructor; [exact Hclose | constructor].
  - intros P1 P2 Hadj. now apply adjacent_single in Hadj.
Qed.

Lemma chain_peaks_close :
  forall a b, adjacent a b [1; 3; 5] ->
    (gap chain_timestamps a b < threshold)%Q.
Proof.
  intros a b H.
  apply adjacent_cons_inv in H. destruct H as [[-> ->] | H]; [reflexivity|].
  apply adjacent_cons_inv in H. destruct H as [[-> ->] | H]; [reflexivity|].
  now apply adjacent_single in H.
Qed.

Lemma group_peaks_all_close_witness :
  ([1; 3; 5] <> [] /\
   in_range (length chain_timestamps) [1; 3; 5] /\
   (forall a b, adjacent a b [1; 3; 5] ->
      (gap chain_timestamps a b < threshold)%Q)) /\
  group_peaks chain_timestamps [1; 3; 5] = Ok [[1; 3; 5]].
Proof.
  assert (Hin : in_range (length chain_timestamps) [1; 3; 5])
    by (repeat constructor).
  split.
  - split; [discriminate|]. split; [exact Hin | exact chain_peaks_close].
  - apply (group_peaks_all_close chain_timestamps [1; 3; 5]);
      [discriminate | exact Hin | exact chain_peaks_close].
Defined.

(** X4.  When every two consecutive peaks are at least 5000 ms apart, the
    segmenter returns one plateau per peak, each holding that peak alone. *)
Theorem group_peaks_all_apart (timestamps : list Q) (peaks : list nat) :
  peaks <> [] ->
  in_range (length timestamps) peaks ->
  (forall a b, adjacent a b peaks -> (threshold <= gap timestamps a b)%Q) ->
  group_peaks timestamps peaks = Ok (map (fun p => [p]) peaks).
Proof.
  intros Hne Hin Hapart.
  destruct (group_peaks_Ok timestamps peaks Hne Hin) as [plateaus E].
  rewrite E. f_equal. symmetry.
  destruct (group_peaks_grouped _ _ _ E) as (Hcat & Hne' & Hch' & Hsep').
  apply (segmentation_unique timestamps); trivial.
  - rewrite Hcat. apply concat_singletons.
  - apply Forall_forall. intros P HP. apply in_map_iff in HP.
    destruct HP as (p & <- & _). discriminate.
  - apply Forall_forall. intros P HP. apply in_map_iff in HP.
    destruct HP as (p & <- & _). apply chained_single.
  - intros P1 P2 Hadj. apply adjacent_singletons in Hadj.
    destruct Hadj as (p & q & -> & -> & Hpq). simpl. now apply Hapart.
Qed.

Lemma apart_peaks_apart :
  forall a b, adjacent a b [1; 3] ->
    (threshold <= gap apart_timestamps a b)%Q.
Proof.
  intros a b H.
  apply adjacent_cons_inv in H. destruct H as [[-> ->] | H].
  - unfold Qle. simpl. lia.
  - now apply adjacent_single in H.
Qed.

Lemma group_peaks_all_apart_witness :
  ([1; 3] <> [] /\
   in_range (length apart_timestamps) [1; 3] /\
   (forall a b, adjacent a b [1; 3] ->
      (threshold <= gap apart_timestamps a b)%Q)) /\
  group_peaks apart_timestamps [1; 3] = Ok (map (fun p => [p]) [1; 3]).
Proof.
  assert (Hin : in_range (length apart_timestamps) [1; 3])
    by (repeat constructor).
  split.
  - split; [discriminate|]. split; [exact Hin | exact apart_peaks_apart].
  - apply (group_peaks_all_apart apart_timestamps [1; 3]);
      [discriminate | exact Hin | exact apart_peaks_apart].
Defined.

(* ------------------------------------------------------------------ *)
(** ** Sign of the time to peak *)

Lemma time_to_peak_of_pos (peak_time start_time_ : Q) :
  (start_time_ < peak_time)%Q ->
  (0 < time_to_peak_of peak_time start_time_)%Q.
Proof.
  intro H. unfold time_to_peak_of.
  apply Qlt_shift_div_l; [reflexivity | lra].
Qed.

Lemma time_to_peak_of_nonpos (peak_time start_time_ : Q) :
  (peak_time <= start_time_)%Q ->
  (time_to_peak_of peak_time start_time_ <= 0)%Q.
Proof.
  intro H. unfold time_to_peak_of.
  apply Qle_shift_div_r; [reflexivity | lra].
Qed.

Lemma rfd_of_None (peak_value time_to_peak : Q) :
  rfd_of peak_value time_to_peak = None <-> (time_to_peak <= 0)%Q.
Proof.
  unfold rfd_of. destruct (Qltb 0 time_to_peak) eqn:E.
  - apply Qltb_true in E. split; [discriminate|].
    intro H. exfalso. apply (Qlt_not_le _ _ E H).
  - apply Qltb_false in E. tauto.
Qed.

(* ------------------------------------------------------------------ *)
(** ** Ordered columns, ordered lists *)

Lemma non_decreasing_cons (a b : Q) (l : list Q) :
  (a <= b)%Q -> non_decreasing (b :: l) -> non_decreasing (a :: b :: l).
Proof.
  intros Hab H i j Hij Hj. destruct j as [|j].
  - replace i with 0 by lia. apply Qle_refl.
  - simpl in Hj. destruct i as [|i].
    + apply Qle_trans with b; trivial.
      apply (H 0 j); simpl; lia.
    + apply (H i j); simpl; lia.
Qed.

Lemma non_decreasing_single (a : Q) : non_decreasing [a].
Proof.
  intros i j Hij Hj. simpl in Hj.
  replace j with 0 by lia. replace i with 0 by lia. apply Qle_refl.
Qed.

Lemma strictly_increasing_cons (a b : Q) (l : list Q) :
  (a < b)%Q -> strictly_increasing (b :: l) ->
  strictly_increasing (a :: b :: l).
Proof.
  intros Hab H i j Hij Hj. destruct j as [|j]; [lia|].
  simpl in Hj. destruct i as [|i].
  - destruct j as [|j]; [exact Hab|].
    apply Qlt_trans with b; trivial.
    apply (H 0 (S j)); simpl; lia.
  - apply (H i j); simpl; lia.
Qed.

Lemma strictly_increasing_single (a : Q) : strictly_increasing [a].
Proof. intros i j Hij Hj. simpl in Hj. lia. Qed.

Lemma scenario_timestamps_increasing : strictly_increasing scenario_timestamps.
Proof.
  unfold scenario_timestamps.
  repeat (apply strictly_increasing_cons; [reflexivity|]).
  apply strictly_increasing_single.
Qed.

Lemma mixed_timestamps_non_decreasing : non_decreasing mixed_timestamps.
Proof.
  unfold mixed_timestamps.
  repeat (apply non_decreasing_cons; [unfold Qle; simpl; lia|]).
  apply non_decreasing_single.
Qed.

Lemma last_in {A : Type} (d : A) (l : list A) : l <> [] -> In (last l d) l.
Proof.
  intro H. rewrite (app_removelast_last d H) at 2.
  apply in_or_app. right. now left.
Qed.

Lemma StronglySorted_lt_last (l : list nat) (p : nat) :
  StronglySorted lt l -> In p l -> p <= last l O.
Proof.
  induction l as [|a l IH]; intros Hs Hin; [easy|].
  apply StronglySorted_inv in Hs. destruct Hs as [Hs Hall].
  destruct l as [|b l].
  - destruct Hin as [->|[]]. simpl. lia.
  - change (last (a :: b :: l) O) with (last (b :: l) O).
    destruct Hin as [->|Hin]; [|now apply IH].
    rewrite Forall_forall in Hall.
    assert (In (last (b :: l) O) (b :: l)) by (apply last_in; discriminate).
    specialize (Hall _ H). lia.
Qed.

Lemma adjacent_in {A : Type} (a b : A) (l : list A) :
  adjacent a b l -> In a l /\ In b l.
Proof.
  intros (l1 & l2 & ->). split; apply in_or_app; right; simpl; auto.
Qed.

Lemma Forall2_adjacent {A B : Type} (R : A -> B -> Prop)
    (l : list A) (l' : list B) (b1 b2 : B) :
  Forall2 R l l' -> adjacent b1 b2 l' ->
  exists a1 a2, adjacent a1 a2 l /\ R a1 b1 /\ R a2 b2.
Proof.
  intros H (l1' & l2' & ->).
  apply Forall2_app_inv_r in H. destruct H as (l1 & l2 & _ & H & ->).
  inversion H as [|a1 ? k ? Hab1 H']; subst.
  inversion H' as [|a2 ? k2 ? Hab2 _]; subst.
  exists a1, a2. split; [now exists l1, k2 | now split].
Qed.

Lemma Forall2_same_left {A B C : Type} (R1 : A -> B -> Prop)
    (R2 : A -> C -> Prop) (l : list A) (bs : list B) (cs : list C) :
  Forall2 R1 l bs -> Forall2 R2 l cs ->
  Forall2 (fun b c => exists a, R1 a b /\ R2 a c) bs cs.
Proof.
  intro H. revert cs. induction H as [|a b l bs Hab H IH]; intros cs Hc;
    inversion Hc; subst; constructor; eauto.
Qed.

Lemma length_le_concat {A : Type} (ls : list (list A)) :
  Forall (fun l => l <> []) ls -> length ls <= length (concat ls).
Proof.
  induction 1 as [|l ls Hl _ IH]; simpl; [lia|].
  rewrite length_app. destruct l; [congruence | simpl; lia].
Qed.

(** What a successful run of lines 44-97 has gone through. *)
Lemma analysis_of_peaks_Ok (timestamps signal : list Q) (peaks : list nat)
    (rows : list RFDResult) (lines : list RFDLine) :
  analysis_of_peaks timestamps signal peaks = Ok (rows, lines) ->
  exists plateaus,
    group_peaks timestamps peaks = Ok plateaus /\
    Forall2 (fun plateau row => exists line,
               analyse_plateau timestamps signal plateau = Ok (row, line))
            plateaus rows /\
    Forall2 (fun plateau line => exists row,
               analyse_plateau timestamps signal plateau = Ok (row, line))
            plateaus lines.
Proof.
  unfold analysis_of_peaks. intro H. inv_bind H. rename v into plateaus.
  exists plateaus. split; trivial.
  destruct (rfd_loop_rows _ _ _ _ _ _ _ H) as (nr & nl & -> & -> & Hr & Hl).
  now split.
Qed.

Lemma analysis_is_analysis_of_peaks (timestamps signal : list Q) :
  analysis timestamps signal
    = analysis_of_peaks timestamps signal (find_peaks signal).
Proof. reflexivity. Qed.

(* ------------------------------------------------------------------ *)
(** ** Rows and chart lines *)

(** X5.  On columns of equal length and a non-empty list of peaks that are
    samples of the recording, lines 44-97 raise nothing.  They return one
    row and one chart line per plateau, at least one and at most as many as
    there are peaks, and the line at each position runs from the row's
    plateau start time at force 0 to the row's peak time at the row's peak
    value in newtons. *)
Theorem rows_and_lines (timestamps signal : list Q) (peaks : list nat) :
  length timestamps = length signal ->
  peaks <> [] ->
  in_range (length signal) peaks ->
  exists plateaus rows lines,
    group_peaks timestamps peaks = Ok plateaus /\
    analysis_of_peaks timestamps signal peaks = Ok (rows, lines) /\
    length rows = length plateaus /\
    length lines = length plateaus /\
    1 <= length rows <= length peaks /\
    Forall2
      (fun row line =>
         start_time line = Plateau_Start_Time row /\
         end_time line = Peak_Time row /\
         start_value line = 0%Q /\
         end_value line = Peak_Value_N row)
      rows lines.
Proof.
  intros Hlen Hne Hin.
  destruct (group_peaks_Ok timestamps peaks Hne) as [plateaus E].
  { now rewrite Hlen. }
  destruct (group_peaks_grouped _ _ _ E) as (Hcat & Hnonempty & _).
  assert (Hall : Forall (fun P => P <> [] /\ in_range (length signal) P)
                   plateaus).
  { rewrite Forall_forall in *. intros P HP. split; [auto|].
    apply in_range_concat_in with plateaus; trivial. now rewrite Hcat. }
  destruct (rfd_loop_Ok timestamps signal Hlen plateaus ([], []) Hall)
    as [[rows lines] Erows].
  assert (Erun : analysis_of_peaks timestamps signal peaks = Ok (rows, lines)).
  { unfold analysis_of_peaks. rewrite E. exact Erows. }
  exists plateaus, rows, lines. split; trivial. split; trivial.
  destruct (rfd_loop_rows _ _ _ _ _ _ _ Erows) as (nr & nl & -> & -> & Hr & Hl).
  simpl.
  pose proof (Forall2_length Hr) as Hlr.
  pose proof (Forall2_length Hl) as Hll.
  split; [auto|]. split; [auto|]. split.
  - pose proof (length_le_concat plateaus Hnonempty) as Hle.
    rewrite Hcat in Hle.
    destruct plateaus as [|P plateaus];
      [simpl in Hcat; congruence | simpl in *; lia].
  - eapply Forall2_impl; [|exact (Forall2_same_left _ _ _ _ _ Hr Hl)].
    cbv beta. intros row line (P & [line' E1] & [row' E2]).
    rewrite E1 in E2. inversion E2; subst row' line'.
    destruct (analyse_plateau_fields _ _ _ _ _ E1)
      as (h & s & _ & _ & _ & _ & _ & _ & _ & _ & _ & _ & ->).
    repeat split.
Qed.

Lemma rows_and_lines_witness :
  (length mixed_timestamps = length mixed_signal /\
   [1; 4] <> [] /\ in_range (length mixed_signal) [1; 4]) /\
  exists plateaus rows lines,
    group_peaks mixed_timestamps [1; 4] = Ok plateaus /\
    analysis_of_peaks mixed_timestamps mixed_signal [1; 4] = Ok (rows, lines) /\
    length rows = length plateaus /\
    length lines = length plateaus /\
    1 <= length rows <= length [1; 4] /\
    Forall2
      (fun row line =>
         start_time line = Plateau_Start_Time row /\
         end_time line = Peak_Time row /\
         start_value line = 0%Q /\
         end_value line = Peak_Value_N row)
      rows lines.
Proof.
  assert (Hin : in_range (length mixed_signal) [1; 4]) by (repeat constructor).
  split.
  - split; [reflexivity|]. split; [discriminate | exact Hin].
  - apply (rows_and_lines mixed_timestamps mixed_signal [1; 4]);
      [reflexivity | discriminate | exact Hin].
Defined.

(* ------------------------------------------------------------------ *)
(** ** The reported peak *)

(** X6.  In the row of a plateau, the peak value in newtons is the force of
    a peak of that plateau, the peak time is the timestamp of that same
    peak, and no peak of the plateau has a greater force. *)
Theorem peak_value_is_plateau_maximum (timestamps signal : list Q)
    (plateau : list nat) (row : RFDResult) (line : RFDLine) :
  analyse_plateau timestamps signal plateau = Ok (row, line) ->
  exists highest,
    In highest plateau /\
    Peak_Value_N row = item signal highest /\
    Peak_Time row = item timestamps highest /\
    forall p, In p plateau -> (item signal p <= Peak_Value_N row)%Q.
Proof.
  intro E.
  destruct (analyse_plateau_fields _ _ _ _ _ E)
    as (h & s & Eh & _ & _ & _ & HPT & _ & HPV & _).
  apply highest_peak_idx_first_max in Eh.
  exists h. split; [eapply first_max_in; eassumption|].
  split; trivial. split; trivial.
  destruct Eh as (before & after & -> & Hb & Ha).
  rewrite HPV. intros p Hp.
  apply in_app_or in Hp. destruct Hp as [Hp | [<- | Hp]].
  - rewrite Forall_forall in Hb. apply Qlt_le_weak. now apply Hb.
  - apply Qle_refl.
  - rewrite Forall_forall in Ha. now apply Ha.
Qed.

Lemma peak_value_is_plateau_maximum_witness :
  exists row line,
    analyse_plateau scenario_timestamps scenario_signal [3; 7]
      = Ok (row, line) /\
    exists highest,
      In highest [3; 7] /\
      Peak_Value_N row = item scenario_signal highest /\
      Peak_Time row = item scenario_timestamps highest /\
      forall p, In p [3; 7] ->
        (item scenario_signal p <= Peak_Value_N row)%Q.
Proof.
  eexists. eexists. split; [reflexivity|].
  eapply (peak_value_is_plateau_maximum scenario_timestamps scenario_signal
            [3; 7]).
  reflexivity.
Defined.

(* ------------------------------------------------------------------ *)
(** ** When the RFD is missing *)

(** X7.  When the timestamps increase strictly and the plateau's peaks are
    in increasing order, the RFD of the plateau's row is absent exactly when
    the highest peak is the plateau's first peak and no sample before that
    peak is at or under the baseline of 0.1 N. *)
Theorem rfd_missing_iff (timestamps signal : list Q) (plateau : list nat)
    (row : RFDResult) (line : RFDLine) :
  strictly_increasing timestamps ->
  StronglySorted lt plateau ->
  analyse_plateau timestamps signal plateau = Ok (row, line) ->
  (RFD_N_s row = None <->
   (highest_peak_idx signal plateau = Ok (hd O plateau) /\
    forall k, k < hd O plateau -> (baseline < item signal k)%Q)).
Proof.
  intros Hinc Hsorted E.
  destruct (analyse_plateau_fields _ _ _ _ _ E)
    as (h & s & Eh & Es & (_ & Hh & _) & _ & _ & Http & _ & _ & HN & _).
  assert (Hfirst : hd O plateau <= h).
  { apply StronglySorted_lt_hd; trivial.
    eapply first_max_in. apply highest_peak_idx_first_max. exact Eh. }
  destruct (start_idx_spec _ _ _ Es) as (p0 & Ep0 & Hcase).
  assert (Hp0 : p0 = hd O plateau).
  { apply getitem_Ok in Ep0. destruct plateau; simpl in Ep0; [discriminate|].
    now inversion Ep0. }
  subst p0.
  rewrite HN, rfd_of_None, Http. split.
  - intro Hle.
    assert (Hsh : ~ s < h).
    { intro Hlt. pose proof (Hinc s h Hlt Hh) as Hts.
      pose proof (time_to_peak_of_pos _ _ Hts) as Hpos.
      apply (Qlt_not_le _ _ Hpos Hle). }
    destruct Hcase as [(Hs & _ & _) | (-> & Habove)]; [lia|].
    assert (h = hd O plateau) by lia. subst h. now split.
  - intros [Eh' Habove].
    rewrite Eh in Eh'. inversion Eh'; subst h.
    destruct Hcase as [(Hs & Hrest & _) | (-> & _)].
    + exfalso. apply (Qlt_not_le _ _ (Habove s Hs) Hrest).
    + apply time_to_peak_of_nonpos. apply Qle_refl.
Qed.

Lemma rfd_missing_iff_witness :
  (strictly_increasing scenario_timestamps /\ StronglySorted lt [3; 7]) /\
  exists row line,
    analyse_plateau scenario_timestamps scenario_signal [3; 7]
      = Ok (row, line) /\
    (RFD_N_s row = None <->
     (highest_peak_idx scenario_signal [3; 7] = Ok (hd O [3; 7]) /\
      forall k, k < hd O [3; 7] -> (baseline < item scenario_signal k)%Q)).
Proof.
  assert (Hs : StronglySorted lt [3; 7]) by (repeat constructor).
  split.
  - split; [exact scenario_timestamps_increasing | exact Hs].
  - eexists. eexists. split; [reflexivity|].
    eapply (rfd_missing_iff scenario_timestamps scenario_signal [3; 7]);
      [exact scenario_timestamps_increasing | exact Hs | reflexivity].
Defined.

(* ------------------------------------------------------------------ *)
(** ** Reported peaks are five seconds apart *)

(** X8.  When the timestamps are non-decreasing and the peaks are in
    increasing order, the peak times of two consecutive rows are at least
    5000 ms apart. *)
Theorem peak_times_apart (timestamps signal : list Q) (peaks : list nat)
    (rows : list RFDResult) (lines : list RFDLine) :
  non_decreasing timestamps ->
  StronglySorted lt peaks ->
  in_range (length timestamps) peaks ->
  analysis_of_peaks timestamps signal peaks = Ok (rows, lines) ->
  forall row1 row2, adjacent row1 row2 rows ->
    (Peak_Time row1 + threshold <= Peak_Time row2)%Q.
Proof.
  intros Hmono Hsorted Hin Erun row1 row2 Hadj.
  destruct (analysis_of_peaks_Ok _ _ _ _ _ Erun) as (plateaus & E & Hrows & _).
  destruct (group_peaks_grouped _ _ _ E) as (Hcat & Hnonempty & _ & Hsep).
  destruct (Forall2_adjacent _ _ _ _ _ Hrows Hadj)
    as (P1 & P2 & HadjP & [line1 E1] & [line2 E2]).
  destruct (adjacent_in _ _ _ HadjP) as [HP1 HP2].
  assert (Hs1 : StronglySorted lt P1).
  { apply StronglySorted_concat_in with plateaus; trivial. now rewrite Hcat. }
  assert (Hs2 : StronglySorted lt P2).
  { apply StronglySorted_concat_in with plateaus; trivial. now rewrite Hcat. }
  destruct (analyse_plateau_fields _ _ _ _ _ E1)
    as (h1 & s1 & Eh1 & _ & _ & _ & HPT1 & _).
  destruct (analyse_plateau_fields _ _ _ _ _ E2)
    as (h2 & s2 & Eh2 & _ & (_ & Hh2 & _) & _ & HPT2 & _).
  apply highest_peak_idx_first_max, first_max_in in Eh1.
  apply highest_peak_idx_first_max, first_max_in in Eh2.
  pose proof (StronglySorted_lt_last P1 h1 Hs1 Eh1) as Hlast.
  pose proof (StronglySorted_lt_hd P2 h2 Hs2 Eh2) as Hhd.
  assert (Hlast_range : last P1 O < length timestamps).
  { rewrite Forall_forall in Hnonempty.
    assert (In (last P1 O) P1) by (apply last_in; auto).
    pose proof (in_range_concat_in (length timestamps) plateaus P1) as Hr.
    rewrite Hcat in Hr. specialize (Hr Hin HP1).
    unfold in_range in Hr. rewrite Forall_forall in Hr. auto. }
  pose proof (Hmono h1 (last P1 O) Hlast Hlast_range) as Ht1.
  pose proof (Hmono (hd O P2) h2 Hhd Hh2) as Ht2.
  pose proof (Hsep P1 P2 HadjP) as Hgap. unfold gap in Hgap.
  rewrite HPT1, HPT2. lra.
Qed.

Lemma peak_times_apart_witness :
  (non_decreasing mixed_timestamps /\ StronglySorted lt [1; 4] /\
   in_range (length mixed_timestamps) [1; 4]) /\
  exists rows lines,
    analysis_of_peaks mixed_timestamps mixed_signal [1; 4] = Ok (rows, lines) /\
    forall row1 row2, adjacent row1 row2 rows ->
      (Peak_Time row1 + threshold <= Peak_Time row2)%Q.
Proof.
  assert (Hs : StronglySorted lt [1; 4]) by (repeat constructor).
  assert (Hin : in_range (length mixed_timestamps) [1; 4])
    by (repeat constructor).
  split.
  - split; [exact mixed_timestamps_non_decreasing|]. split; assumption.
  - eexists. eexists. split; [reflexivity|].
    eapply (peak_times_apart mixed_timestamps mixed_signal [1; 4]);
      [exact mixed_timestamps_non_decreasing | exact Hs | exact Hin
      | reflexivity].
Defined.

(* ------------------------------------------------------------------ *)
(** ** The whole run, from the parsed table *)




(** The device table has one peak and gives one row. *)
Example device_table_row :
  exists row line,
    run device_table = Ok ([row], [line]) /\
    Peak_Value_kg row == 5 /\ Time_to_Peak_s row == 1 # 10.
Proof. do 2 eexists. repeat split; reflexivity. Qed.
